(** * Agent Episode Store: storage, query, replay and diff engine

    A shallow embedding of [pkg/models/episode.py] and
    [pkg/storage/sqlite.py], and the properties of the episode ledger
    proved over it.

    Conventions of the embedding.
    - Python [int] is [Z]; Python [str] and SQL [TEXT] are [string]
      (code points below 256); [None] is [option]'s [None].
    - Python [float] is the carrier of the class [Float64]: the doubles,
      the two infinities and NaN among them.  The program only sums,
      subtracts, rounds, compares and prints floats, and these built-ins
      are the operations of the class; the laws of [Float64Laws] are
      facts of IEEE 754 arithmetic and of CPython, each stated for the
      floats it holds of.
    - [datetime] values are carried as their ISO-8601 text, which is what
      the table stores and what the queries compare.
    - A call that can raise returns an [outcome]; the store is passed
      explicitly, and the clock and the UUID generator are arguments.
    - The one table of the database is the list of its rows in insertion
      (rowid) order, and a column holds the value written to it.  An
      [int] that [save] binds must fit SQLite's 64-bit [INTEGER], and a
      NaN, which SQLite takes for [NULL], is refused by [NOT NULL].  The
      negative zero, which a [REAL] column gives back as [0.0], is never
      written: a total is a sum that starts from [0].
    - pydantic is taken as of its version 2.13: [mode="json"] turns an
      infinity or a NaN inside a [dict[str, Any]] into [None] and leaves
      a field of type [float] as it is.
    - [ORDER BY] is left to the SQL engine, described by the class
      [SqlEngine]: the order of the rows is a function of the conditions
      of the statement, the values bound to them and the rows that meet
      them. *)

From Stdlib Require Import ZArith Ascii String DecimalString DecimalZ DecimalPos.
From stdpp Require Import base option list strings gmap sorting.

#[local] Open Scope Z_scope.
#[local] Set Warnings "-register-all".

(** ** Python values and control flow *)

Inductive exn : Type :=
  | AssertionError
  | ValidationError
  | IntegrityError
  | OverflowError
  | JSONDecodeError
  | TypeError.

Inductive outcome (A : Type) : Type :=
  | Returned (a : A)
  | Raised (e : exn).
Arguments Returned {A} a.
Arguments Raised {A} e.

#[export] Instance outcome_ret : MRet outcome := fun A a => Returned a.
#[export] Instance outcome_bind : MBind outcome := fun A B f m =>
  match m with
  | Returned a => f a
  | Raised e => Raised e
  end.
#[export] Instance outcome_fmap : FMap outcome := fun A B f m =>
  match m with
  | Returned a => Returned (f a)
  | Raised e => Raised e
  end.

(** [[f(x) for x in xs]] where [f] may raise: the first failure wins. *)
Fixpoint traverse {A B : Type} (f : A → outcome B) (xs : list A) : outcome (list B) :=
  match xs with
  | [] => Returned []
  | x :: xs' =>
      y ← f x;
      ys ← traverse f xs';
      Returned (y :: ys)
  end.

Definition or_raise {A : Type} (e : exn) (o : option A) : outcome A :=
  match o with
  | Some a => Returned a
  | None => Raised e
  end.

(** Truth value of a [str | None] argument: [None] and the empty string are falsy. *)
Definition truthy (o : option string) : bool :=
  match o with
  | Some s => negb (String.eqb s EmptyString)
  | None => false
  end.

(** The built-in [sum] over [int]s, from the left, starting at [0]. *)
Definition sum (xs : list Z) : Z := fold_left Z.add xs 0.

(** ** Floats

    The operations on [float] the program uses.  [float_sum xs] is the
    built-in [sum(xs)], which starts from [0]: a running total from the
    left up to CPython 3.11, a compensated sum since 3.12.
    [float_sub x y] is [x - y], [float_neg x] is [-x], [float_round6 x] is
    [round(x, 6)], [float_ge0 x] is [x >= 0] and [float_eqb x y] is
    [x == y].  [float_repr] is [float.__repr__], the text [json.dumps]
    writes for a float that is a number, and [float_of_repr] is what
    [json.loads] reads back from a number token that is not an integer
    literal.  [float_zero] is the [0] that [sum] starts from,
    [float_inf] is [float("inf")] and [float_nan] is [float("nan")].
    Two elements of the carrier are equal when they are the same double,
    so that the two zeros are different elements which [float_eqb] holds
    of; the NaNs are one element, which [float_eqb] does not hold of. *)

Class Float64 : Type := {
  float : Type;
  float_zero : float;
  float_inf : float;
  float_nan : float;
  float_sum : list float → float;
  float_sub : float → float → float;
  float_neg : float → float;
  float_round6 : float → float;
  float_ge0 : float → bool;
  float_eqb : float → float → bool;
  float_repr : float → list ascii;
  float_of_repr : list ascii → option float;
}.

(** [x != x], which holds of NaN alone. *)
Definition float_isnan `{Float64} (x : float) : bool := negb (float_eqb x x).

(** [math.isfinite(x)]: neither a NaN nor an infinity. *)
Definition float_finite `{Float64} (x : float) : bool :=
  negb (float_isnan x) && negb (float_eqb x float_inf)
  && negb (float_eqb x (float_neg float_inf)).

(** ** JSON: values, [json.dumps] and [json.loads] *)

Section Json.
Context `{Float64}.

(** What a [dict[str, Any]] read from a request can hold. *)
Inductive json : Type :=
  | JNull
  | JBool (b : bool)
  | JInt (z : Z)
  | JFloat (f : float)
  | JStr (s : string)
  | JList (l : list json)
  | JDict (d : list (string * json)).

Definition is_ws (c : ascii) : bool :=
  Ascii.eqb c " " || Ascii.eqb c "009" || Ascii.eqb c "010" || Ascii.eqb c "013".

Definition is_digit (c : ascii) : bool :=
  (48 <=? nat_of_ascii c)%nat && (nat_of_ascii c <=? 57)%nat.

Definition number_char (c : ascii) : bool :=
  is_digit c || Ascii.eqb c "-" || Ascii.eqb c "+" || Ascii.eqb c "."
  || Ascii.eqb c "e" || Ascii.eqb c "E".

Definition hex_digit (n : nat) : ascii :=
  if (n <? 10)%nat then ascii_of_nat (48 + n) else ascii_of_nat (87 + n).

Definition hex_value (c : ascii) : option nat :=
  let n := nat_of_ascii c in
  if is_digit c then Some (n - 48)%nat
  else if (97 <=? n)%nat && (n <=? 102)%nat then Some (n - 87)%nat
  else if (65 <=? n)%nat && (n <=? 70)%nat then Some (n - 55)%nat
  else None.

(** One character of a string literal, as [ensure_ascii=True] writes it. *)
Definition encode_char (c : ascii) : list ascii :=
  if Ascii.eqb c "034" then ["\"; "034"]%char
  else if Ascii.eqb c "\" then ["\"; "\"]%char
  else if Ascii.eqb c "010" then ["\"; "n"]%char
  else if Ascii.eqb c "013" then ["\"; "r"]%char
  else if Ascii.eqb c "009" then ["\"; "t"]%char
  else if Ascii.eqb c "008" then ["\"; "b"]%char
  else if Ascii.eqb c "012" then ["\"; "f"]%char
  else if (32 <=? nat_of_ascii c)%nat && (nat_of_ascii c <=? 126)%nat then [c]
  else ["\"; "u"; "0"; "0";
        hex_digit (nat_of_ascii c / 16); hex_digit (nat_of_ascii c mod 16)]%char.

Definition encode_str (s : string) : list ascii :=
  "034"%char :: flat_map encode_char (list_ascii_of_string s) ++ ["034"%char].

Definition int_repr (z : Z) : list ascii :=
  list_ascii_of_string (NilZero.string_of_int (Z.to_int z)).

Fixpoint join (sep : list ascii) (parts : list (list ascii)) : list ascii :=
  match parts with
  | [] => []
  | [p] => p
  | p :: ps => p ++ sep ++ join sep ps
  end.

(** The text of a float, as the [floatstr] of the encoder writes it. *)
Definition floatstr (o : float) : list ascii :=
  if float_isnan o then list_ascii_of_string "NaN"
  else if float_eqb o float_inf then list_ascii_of_string "Infinity"
  else if float_eqb o (float_neg float_inf) then list_ascii_of_string "-Infinity"
  else float_repr o.

(** [json.dumps] with its default separators [", "] and [": "]. *)
Fixpoint dumps (v : json) : list ascii :=
  match v with
  | JNull => list_ascii_of_string "null"
  | JBool true => list_ascii_of_string "true"
  | JBool false => list_ascii_of_string "false"
  | JInt z => int_repr z
  | JFloat f => floatstr f
  | JStr s => encode_str s
  | JList l => "["%char :: join [","; " "]%char (map dumps l) ++ ["]"%char]
  | JDict d =>
      "{"%char
      :: join [","; " "]%char
           (map (λ kv, encode_str (fst kv) ++ [":"; " "]%char ++ dumps (snd kv)) d)
      ++ ["}"%char]
  end.

Definition json_dumps (v : json) : string := string_of_list_ascii (dumps v).

Fixpoint skip_ws (s : list ascii) : list ascii :=
  match s with
  | c :: r => if is_ws c then skip_ws r else s
  | [] => []
  end.

Definition unescape (c : ascii) : option ascii :=
  if Ascii.eqb c "034" then Some "034"%char
  else if Ascii.eqb c "\" then Some "\"%char
  else if Ascii.eqb c "/" then Some "/"%char
  else if Ascii.eqb c "n" then Some "010"%char
  else if Ascii.eqb c "r" then Some "013"%char
  else if Ascii.eqb c "t" then Some "009"%char
  else if Ascii.eqb c "b" then Some "008"%char
  else if Ascii.eqb c "f" then Some "012"%char
  else None.

(** [\uXXXX]: only code points below 256 are strings of the embedding. *)
Definition hex4 (a b c d : ascii) : option ascii :=
  match hex_value a, hex_value b, hex_value c, hex_value d with
  | Some 0%nat, Some 0%nat, Some h, Some l => Some (ascii_of_nat (16 * h + l))
  | _, _, _, _ => None
  end.

Definition prepend (c : ascii) (r : option (list ascii * list ascii)) :
    option (list ascii * list ascii) :=
  match r with
  | Some (cs, rest) => Some (c :: cs, rest)
  | None => None
  end.

(** The body of a string literal, after its opening quote. *)
Fixpoint parse_str (s : list ascii) : option (list ascii * list ascii) :=
  match s with
  | [] => None
  | c :: r =>
      if Ascii.eqb c "034" then Some ([], r)
      else if Ascii.eqb c "\" then
        match r with
        | [] => None
        | e :: r1 =>
            if Ascii.eqb e "u" then
              match r1 with
              | a :: b :: x :: y :: r2 =>
                  match hex4 a b x y with
                  | Some ch => prepend ch (parse_str r2)
                  | None => None
                  end
              | _ => None
              end
            else
              match unescape e with
              | Some ch => prepend ch (parse_str r1)
              | None => None
              end
        end
      else if (nat_of_ascii c <? 32)%nat then None
      else prepend c (parse_str r)
  end.

Fixpoint span_number (s : list ascii) : list ascii * list ascii :=
  match s with
  | c :: r =>
      if number_char c then let '(tok, rest) := span_number r in (c :: tok, rest)
      else ([], s)
  | [] => ([], [])
  end.

(** An integer literal: an optional minus sign, then [0] or digits that
    do not start with [0]. *)
Definition int_of_literal (tok : list ascii) : option Z :=
  match NilZero.int_of_string (string_of_list_ascii tok) with
  | Some d =>
      if bool_decide (int_repr (Z.of_int d) = tok) then Some (Z.of_int d)
      else if bool_decide (tok = ["-"; "0"]%char) then Some 0
      else None
  | None => None
  end.

Definition all_digits_signed (tok : list ascii) : bool :=
  match tok with
  | c :: r => (is_digit c || Ascii.eqb c "-") && forallb is_digit r
  | [] => false
  end.

Definition parse_number (s : list ascii) : option (json * list ascii) :=
  let '(tok, rest) := span_number s in
  if all_digits_signed tok then
    z ← int_of_literal tok; Some (JInt z, rest)
  else
    f ← float_of_repr tok; Some (JFloat f, rest).

Definition expect (word : list ascii) (s : list ascii) (v : json) :
    option (json * list ascii) :=
  if bool_decide (take (length word) s = word) then Some (v, drop (length word) s)
  else None.

(** The recursive-descent reader; [fuel] bounds the nesting and the
    number of elements, and [json_loads] gives it the length of the text.
    The constants [NaN], [Infinity] and [-Infinity] are read as the
    floats they name. *)
Fixpoint parse_value (fuel : nat) (s : list ascii) : option (json * list ascii) :=
  match fuel with
  | O => None
  | S n =>
      match skip_ws s with
      | [] => None
      | c :: r =>
          if Ascii.eqb c "n" then expect (list_ascii_of_string "ull") r JNull
          else if Ascii.eqb c "t" then expect (list_ascii_of_string "rue") r (JBool true)
          else if Ascii.eqb c "f" then expect (list_ascii_of_string "alse") r (JBool false)
          else if Ascii.eqb c "034" then
            '(str, r1) ← parse_str r;
            Some (JStr (string_of_list_ascii str), r1)
          else if Ascii.eqb c "[" then
            match skip_ws r with
            | c1 :: r1 =>
                if Ascii.eqb c1 "]" then Some (JList [], r1)
                else '(vs, r2) ← parse_elems n r; Some (JList vs, r2)
            | [] => None
            end
          else if Ascii.eqb c "{" then
            match skip_ws r with
            | c1 :: r1 =>
                if Ascii.eqb c1 "}" then Some (JDict [], r1)
                else '(kvs, r2) ← parse_members n r; Some (JDict kvs, r2)
            | [] => None
            end
          else if Ascii.eqb c "N" then
            expect (list_ascii_of_string "aN") r (JFloat float_nan)
          else if Ascii.eqb c "I" then
            expect (list_ascii_of_string "nfinity") r (JFloat float_inf)
          else if Ascii.eqb c "-" && bool_decide (head r = Some "I"%char) then
            expect (list_ascii_of_string "Infinity") r (JFloat (float_neg float_inf))
          else parse_number (c :: r)
      end
  end
with parse_elems (fuel : nat) (s : list ascii) : option (list json * list ascii) :=
  match fuel with
  | O => None
  | S n =>
      '(v, r) ← parse_value n s;
      match skip_ws r with
      | c :: r1 =>
          if Ascii.eqb c "," then
            '(vs, r2) ← parse_elems n r1; Some (v :: vs, r2)
          else if Ascii.eqb c "]" then Some ([v], r1)
          else None
      | [] => None
      end
  end
with parse_members (fuel : nat) (s : list ascii) :
    option (list (string * json) * list ascii) :=
  match fuel with
  | O => None
  | S n =>
      match skip_ws s with
      | c :: r =>
          if Ascii.eqb c "034" then
            '(k, r1) ← parse_str r;
            match skip_ws r1 with
            | c1 :: r2 =>
                if Ascii.eqb c1 ":" then
                  '(v, r3) ← parse_value n r2;
                  match skip_ws r3 with
                  | c2 :: r4 =>
                      if Ascii.eqb c2 "," then
                        '(kvs, r5) ← parse_members n r4;
                        Some ((string_of_list_ascii k, v) :: kvs, r5)
                      else if Ascii.eqb c2 "}" then
                        Some ([(string_of_list_ascii k, v)], r4)
                      else None
                  | [] => None
                  end
                else None
            | [] => None
            end
          else None
      | [] => None
      end
  end.

Definition json_loads (text : string) : option json :=
  match parse_value (S (String.length text)) (list_ascii_of_string text) with
  | Some (v, rest) => match skip_ws rest with [] => Some v | _ => None end
  | None => None
  end.

(** What [mode="json"] makes of a value of type [Any]: an infinity or a
    NaN becomes [None], inside lists and dicts too. *)
Fixpoint to_jsonable (v : json) : json :=
  match v with
  | JFloat f => if float_finite f then v else JNull
  | JList l => JList (map to_jsonable l)
  | JDict d => JDict (map (λ kv, (fst kv, to_jsonable (snd kv))) d)
  | _ => v
  end.

(** The same of the items of a [dict[str, Any]]. *)
Definition jsonable_items (d : list (string * json)) : list (string * json) :=
  map (λ kv, (fst kv, to_jsonable (snd kv))) d.
End Json.

(** What [json.dumps] and [json.loads] need from the float built-ins:
    the text of a finite float is a number token with a fraction or an
    exponent, and reading it gives the float back; a float that differs
    from itself is the NaN, and one that equals an infinity is that
    infinity.  Then the facts of IEEE 754 arithmetic the ledger relies
    on.  A float that is [>= 0] is a number; sums and roundings of floats
    that are [>= 0] are [>= 0].  The difference of two floats that are
    [>= 0] is a number unless both are infinite, and then it is the NaN,
    which [round] leaves as it is and which equals nothing.  When [a - b]
    is a number it is the negation of [b - a] (for [a == b] both are
    zeros, of different signs); and [round] commutes with the negation of
    a number and respects [==]. *)
Class Float64Laws `{Float64} : Prop := {
  float_repr_nonempty : ∀ f, float_finite f = true → float_repr f ≠ [];
  float_repr_chars : ∀ f,
    float_finite f = true → forallb number_char (float_repr f) = true;
  float_repr_not_int : ∀ f,
    float_finite f = true → all_digits_signed (float_repr f) = false;
  float_of_repr_repr : ∀ f,
    float_finite f = true → float_of_repr (float_repr f) = Some f;
  float_isnan_nan : ∀ f, float_isnan f = true → f = float_nan;
  float_eqb_inf : ∀ f, float_eqb f float_inf = true → f = float_inf;
  float_eqb_neg_inf : ∀ f,
    float_eqb f (float_neg float_inf) = true → f = float_neg float_inf;
  float_ge0_zero : float_ge0 float_zero = true;
  float_ge0_number : ∀ a, float_ge0 a = true → float_isnan a = false;
  float_ge0_sum : ∀ xs,
    Forall (λ x, float_ge0 x = true) xs → float_ge0 (float_sum xs) = true;
  float_ge0_round6 : ∀ a, float_ge0 a = true → float_ge0 (float_round6 a) = true;
  float_eqb_trans : ∀ a b c,
    float_eqb a b = true → float_eqb b c = true → float_eqb a c = true;
  float_eqb_nan : ∀ a, float_eqb float_nan a = false;
  float_round6_nan : float_round6 float_nan = float_nan;
  float_sub_inf : float_sub float_inf float_inf = float_nan;
  float_sub_number : ∀ a b,
    float_ge0 a = true → float_ge0 b = true →
    float_eqb a float_inf && float_eqb b float_inf = false →
    float_isnan (float_sub a b) = false;
  float_sub_neg : ∀ a b,
    float_isnan (float_sub a b) = false →
    float_eqb (float_sub a b) (float_neg (float_sub b a)) = true;
  float_round6_neg : ∀ a,
    float_isnan a = false →
    float_eqb (float_round6 (float_neg a)) (float_neg (float_round6 a)) = true;
  float_round6_eqb : ∀ a b,
    float_eqb a b = true → float_eqb (float_round6 a) (float_round6 b) = true;
}.

(** ** SQLite's [LIKE]

    [%] matches any run of characters, [_] any one character, and letters
    of the ASCII range match without regard to case. *)

Definition lower (c : ascii) : ascii :=
  if (65 <=? nat_of_ascii c)%nat && (nat_of_ascii c <=? 90)%nat
  then ascii_of_nat (nat_of_ascii c + 32) else c.

Fixpoint like_chars (pattern text : list ascii) : bool :=
  match pattern with
  | [] => match text with [] => true | _ => false end
  | p :: pattern' =>
      if Ascii.eqb p "%" then
        (fix any_suffix (t : list ascii) : bool :=
           like_chars pattern' t
           || match t with
              | [] => false
              | _ :: t' => any_suffix t'
              end) text
      else
        match text with
        | [] => false
        | c :: text' =>
            (Ascii.eqb p "_" || Ascii.eqb (lower p) (lower c)) && like_chars pattern' text'
        end
  end.

Definition sql_like (text pattern : string) : bool :=
  like_chars (list_ascii_of_string pattern) (list_ascii_of_string text).

(** [LIMIT ? OFFSET ?]: a negative limit is no limit, a negative offset is
    no offset. *)
Definition sql_limit_offset {A : Type} (limit offset : Z) (rows : list A) : list A :=
  let rest := drop (Z.to_nat offset) rows in
  if limit <? 0 then rest else take (Z.to_nat limit) rest.

(** Comparison of [TEXT] values: by code point, then by length. *)
Definition text_le (a b : string) : bool := String.leb a b.

(** ** The episode schema ([pkg/models/episode.py]) *)

Definition datetime : Type := string.

Inductive EpisodeStatus : Type := RUNNING | SUCCESS | FAILURE | TIMEOUT | KILLED.

Inductive StepType : Type := LLM_CALL | TOOL_CALL | TOOL_RESULT | DECISION | ERROR.

#[export] Instance EpisodeStatus_eq_dec : EqDecision EpisodeStatus.
Proof. solve_decision. Defined.

#[export] Instance StepType_eq_dec : EqDecision StepType.
Proof. solve_decision. Defined.

(** The [.value] of an enum member, and the member of a value. *)
Definition EpisodeStatus_value (s : EpisodeStatus) : string :=
  match s with
  | RUNNING => "running"
  | SUCCESS => "success"
  | FAILURE => "failure"
  | TIMEOUT => "timeout"
  | KILLED => "killed"
  end.

Definition EpisodeStatus_of_value (v : string) : option EpisodeStatus :=
  find (λ s, String.eqb (EpisodeStatus_value s) v) [RUNNING; SUCCESS; FAILURE; TIMEOUT; KILLED].

Definition StepType_value (t : StepType) : string :=
  match t with
  | LLM_CALL => "llm_call"
  | TOOL_CALL => "tool_call"
  | TOOL_RESULT => "tool_result"
  | DECISION => "decision"
  | ERROR => "error"
  end.

Definition StepType_of_value (v : string) : option StepType :=
  find (λ t, String.eqb (StepType_value t) v) [LLM_CALL; TOOL_CALL; TOOL_RESULT; DECISION; ERROR].

(** [str(member)] of a [(str, Enum)] class. *)
Definition StepType_str (t : StepType) : string :=
  match t with
  | LLM_CALL => "StepType.LLM_CALL"
  | TOOL_CALL => "StepType.TOOL_CALL"
  | TOOL_RESULT => "StepType.TOOL_RESULT"
  | DECISION => "StepType.DECISION"
  | ERROR => "StepType.ERROR"
  end.

(** [str(x)] of a [str | None]. *)
Definition str_opt (o : option string) : string :=
  match o with
  | Some s => s
  | None => "None"
  end.

(** [d.get(k)] on a JSON object, and the keyword argument [k] of [**d]:
    of the items of a text that repeats a key, [json.loads] keeps the
    last. *)
Definition kwarg `{Float64} (k : string) (d : list (string * json)) : option json :=
  snd <$> find (λ kv, String.eqb (fst kv) k) (rev d).

Definition json_opt_str `{Float64} (o : option string) : json :=
  match o with
  | Some s => JStr s
  | None => JNull
  end.

(** Validation of one field.  A field that is absent takes its default;
    a value of another JSON type raises (pydantic's lax coercions, such
    as a numeric string for an [int], are not part of the embedding). *)
Definition field_opt_str `{Float64} (o : option json) : outcome (option string) :=
  match o with
  | None | Some JNull => Returned None
  | Some (JStr s) => Returned (Some s)
  | Some _ => Raised ValidationError
  end.

Definition field_int_ge0 `{Float64} (default : option Z) (o : option json) : outcome Z :=
  match o with
  | None => or_raise ValidationError default
  | Some (JInt z) => if 0 <=? z then Returned z else Raised ValidationError
  | Some _ => Raised ValidationError
  end.

Definition field_float_ge0 `{Float64} (default : option float) (o : option json) :
    outcome float :=
  match o with
  | None => or_raise ValidationError default
  | Some (JFloat f) => if float_ge0 f then Returned f else Raised ValidationError
  | Some _ => Raised ValidationError
  end.

Definition field_dict `{Float64} (o : option json) : outcome (list (string * json)) :=
  match o with
  | None => Returned []
  | Some (JDict d) => Returned d
  | Some _ => Raised ValidationError
  end.

Definition field_str_list `{Float64} (v : json) : outcome (list string) :=
  match v with
  | JList l =>
      traverse (λ x, match x with JStr s => Returned s | _ => Raised ValidationError end) l
  | _ => Raised ValidationError
  end.

Module EpisodeStep.

Record t `{Float64} : Type := mk {
  step_index : Z;
  step_type : StepType;
  air_record_id : option string;
  tool_name : option string;
  model : option string;
  provider : option string;
  input_summary : option string;
  output_summary : option string;
  tokens : Z;
  cost_usd : float;
  duration_ms : Z;
  timestamp : datetime;
  error : option string;
  metadata : list (string * json);
}.

(** The constraints [ge=0] of the fields, which hold of every instance
    built by the class. *)
Definition valid `{Float64} (s : t) : Prop :=
  0 ≤ step_index s ∧ 0 ≤ tokens s ∧ float_ge0 (cost_usd s) = true ∧ 0 ≤ duration_ms s.

(** [s.model_dump(mode="json")]. *)
Definition model_dump `{Float64} (s : t) : list (string * json) :=
  [ ("step_index", JInt (step_index s));
    ("step_type", JStr (StepType_value (step_type s)));
    ("air_record_id", json_opt_str (air_record_id s));
    ("tool_name", json_opt_str (tool_name s));
    ("model", json_opt_str (model s));
    ("provider", json_opt_str (provider s));
    ("input_summary", json_opt_str (input_summary s));
    ("output_summary", json_opt_str (output_summary s));
    ("tokens", JInt (tokens s));
    ("cost_usd", JFloat (cost_usd s));
    ("duration_ms", JInt (duration_ms s));
    ("timestamp", JStr (timestamp s));
    ("error", json_opt_str (error s));
    ("metadata", JDict (jsonable_items (metadata s))) ]%string.

(** The constructor [EpisodeStep] on keyword arguments; [now] is the
    clock, read by the default of [timestamp]. *)
Definition validate `{Float64} (now : datetime) (kw : list (string * json)) : outcome t :=
  step_index ← field_int_ge0 None (kwarg "step_index" kw);
  step_type ←
    match kwarg "step_type" kw with
    | Some (JStr v) => or_raise ValidationError (StepType_of_value v)
    | _ => Raised ValidationError
    end;
  air_record_id ← field_opt_str (kwarg "air_record_id" kw);
  tool_name ← field_opt_str (kwarg "tool_name" kw);
  model ← field_opt_str (kwarg "model" kw);
  provider ← field_opt_str (kwarg "provider" kw);
  input_summary ← field_opt_str (kwarg "input_summary" kw);
  output_summary ← field_opt_str (kwarg "output_summary" kw);
  tokens ← field_int_ge0 (Some 0) (kwarg "tokens" kw);
  cost_usd ← field_float_ge0 (Some float_zero) (kwarg "cost_usd" kw);
  duration_ms ← field_int_ge0 (Some 0) (kwarg "duration_ms" kw);
  timestamp ←
    match kwarg "timestamp" kw with
    | None => Returned now
    | Some (JStr v) => Returned v
    | Some _ => Raised ValidationError
    end;
  error ← field_opt_str (kwarg "error" kw);
  metadata ← field_dict (kwarg "metadata" kw);
  Returned (mk _ step_index step_type air_record_id tool_name model provider
              input_summary output_summary tokens cost_usd duration_ms timestamp
              error metadata).

(** [getattr(s, field)] rendered by [str], for the fields [diff] compares. *)
Definition getattr_str `{Float64} (s : t) (field : string) : string :=
  if String.eqb field "step_type" then StepType_str (step_type s)
  else if String.eqb field "tool_name" then str_opt (tool_name s)
  else if String.eqb field "model" then str_opt (model s)
  else if String.eqb field "provider" then str_opt (provider s)
  else if String.eqb field "input_summary" then str_opt (input_summary s)
  else if String.eqb field "output_summary" then str_opt (output_summary s)
  else "None".

End EpisodeStep.

Module EpisodeCreate.

Record t `{Float64} : Type := mk {
  agent_id : string;
  steps : list EpisodeStep.t;
  status : EpisodeStatus;
  metadata : list (string * json);
}.

(** What the class guarantees of a payload: [min_length=1] of the agent
    and the constraints of each step. *)
Definition valid `{Float64} (p : t) : Prop :=
  agent_id p ≠ EmptyString ∧ Forall EpisodeStep.valid (steps p).

End EpisodeCreate.

Module Episode.

Record t `{Float64} : Type := mk {
  episode_id : string;
  agent_id : string;
  status : EpisodeStatus;
  steps : list EpisodeStep.t;
  tools_used : list string;
  total_tokens : Z;
  total_cost_usd : float;
  total_duration_ms : Z;
  step_count : Z;
  started_at : datetime;
  ended_at : option datetime;
  metadata : list (string * json);
}.

(** The constructor [Episode] on values of the fields' types: the
    constraints [min_length=1] and [ge=0] are checked. *)
Definition init `{Float64} (episode_id agent_id : string) (status : EpisodeStatus)
    (steps : list EpisodeStep.t) (tools_used : list string)
    (total_tokens : Z) (total_cost_usd : float) (total_duration_ms step_count : Z)
    (started_at : datetime) (ended_at : option datetime)
    (metadata : list (string * json)) : outcome t :=
  if String.eqb agent_id EmptyString then Raised ValidationError
  else if negb ((0 <=? total_tokens) && float_ge0 total_cost_usd
                && (0 <=? total_duration_ms) && (0 <=? step_count))
  then Raised ValidationError
  else Returned (mk _ episode_id agent_id status steps tools_used total_tokens
                   total_cost_usd total_duration_ms step_count started_at ended_at
                   metadata).

(** One turn of the loop over the steps that collects the tools. *)
Definition add_tool `{Float64} (acc : gset string * list string) (s : EpisodeStep.t) :
    gset string * list string :=
  let '(seen, tools) := acc in
  match EpisodeStep.tool_name s with
  | Some name =>
      if truthy (Some name) && bool_decide (name ∉ seen)
      then ({[name]} ∪ seen, tools ++ [name])
      else acc
  | None => acc
  end.

Definition compute_aggregates `{Float64} (self : t) : t :=
  let step_count := Z.of_nat (length (steps self)) in
  let total_tokens := sum (map EpisodeStep.tokens (steps self)) in
  let total_cost_usd := float_round6 (float_sum (map EpisodeStep.cost_usd (steps self))) in
  let total_duration_ms := sum (map EpisodeStep.duration_ms (steps self)) in
  let tools := snd (fold_left add_tool (steps self) (∅, [])) in
  mk _ (episode_id self) (agent_id self) (status self) (steps self) tools total_tokens
     total_cost_usd total_duration_ms step_count (started_at self) (ended_at self)
     (metadata self).

(** [e.model_dump(mode="json")]. *)
Definition model_dump `{Float64} (e : t) : list (string * json) :=
  [ ("episode_id", JStr (episode_id e));
    ("agent_id", JStr (agent_id e));
    ("status", JStr (EpisodeStatus_value (status e)));
    ("steps", JList (map (λ s, JDict (EpisodeStep.model_dump s)) (steps e)));
    ("tools_used", JList (map JStr (tools_used e)));
    ("total_tokens", JInt (total_tokens e));
    ("total_cost_usd", JFloat (total_cost_usd e));
    ("total_duration_ms", JInt (total_duration_ms e));
    ("step_count", JInt (step_count e));
    ("started_at", JStr (started_at e));
    ("ended_at", json_opt_str (ended_at e));
    ("metadata", JDict (jsonable_items (metadata e))) ]%string.

End Episode.

Module EpisodeSummary.

Record t `{Float64} : Type := mk {
  episode_id : string;
  agent_id : string;
  status : EpisodeStatus;
  tools_used : list string;
  total_tokens : Z;
  total_cost_usd : float;
  total_duration_ms : Z;
  step_count : Z;
  started_at : datetime;
  ended_at : option datetime;
}.

(** The projection of an episode that drops its steps and metadata. *)
Definition of_episode `{Float64} (e : Episode.t) : t :=
  mk _ (Episode.episode_id e) (Episode.agent_id e) (Episode.status e)
     (Episode.tools_used e) (Episode.total_tokens e) (Episode.total_cost_usd e)
     (Episode.total_duration_ms e) (Episode.step_count e) (Episode.started_at e)
     (Episode.ended_at e).

End EpisodeSummary.

Module ReplayStep.

Record t `{Float64} : Type := mk {
  replay_index : Z;
  step_type : StepType;
  tool_name : option string;
  model : option string;
  provider : option string;
  input_summary : option string;
  output_summary : option string;
  tokens : Z;
  cost_usd : float;
  duration_ms : Z;
  metadata : list (string * json);
}.

(** [r.model_dump(mode="json")]: the fields a replay step has. *)
Definition model_dump `{Float64} (r : t) : list (string * json) :=
  [ ("replay_index", JInt (replay_index r));
    ("step_type", JStr (StepType_value (step_type r)));
    ("tool_name", json_opt_str (tool_name r));
    ("model", json_opt_str (model r));
    ("provider", json_opt_str (provider r));
    ("input_summary", json_opt_str (input_summary r));
    ("output_summary", json_opt_str (output_summary r));
    ("tokens", JInt (tokens r));
    ("cost_usd", JFloat (cost_usd r));
    ("duration_ms", JInt (duration_ms r));
    ("metadata", JDict (jsonable_items (metadata r))) ]%string.

End ReplayStep.

Module EpisodeReplay.

Record t `{Float64} : Type := mk {
  episode_id : string;
  agent_id : string;
  original_status : EpisodeStatus;
  replay_steps : list ReplayStep.t;
  total_tokens : Z;
  total_cost_usd : float;
  tools_used : list string;
}.

End EpisodeReplay.

Module StepDiff.

Record t : Type := mk {
  step_index : Z;
  field : string;
  left : option string;
  right : option string;
}.

End StepDiff.

Module EpisodeDiff.

Record t `{Float64} : Type := mk {
  left_episode_id : string;
  right_episode_id : string;
  left_step_count : Z;
  right_step_count : Z;
  matching_steps : Z;
  differing_steps : Z;
  extra_left : Z;
  extra_right : Z;
  token_delta : Z;
  cost_delta : float;
  duration_delta : Z;
  step_diffs : list StepDiff.t;
}.

End EpisodeDiff.

(** ** The table [episodes] ([pkg/storage/sqlite.py])

    One record per row, with the columns the program reads.  The column
    [created_at] is filled by its default and never read. *)

Module Row.

Record t `{Float64} : Type := mk {
  episode_id : string;
  agent_id : string;
  status : string;
  steps : string;
  tools_used : string;
  total_tokens : Z;
  total_cost_usd : float;
  total_duration_ms : Z;
  step_count : Z;
  started_at : string;
  ended_at : option string;
  metadata : string;
}.

End Row.

(** One condition of a [WHERE] clause on a row, with the value bound to
    its placeholder. *)
Definition eval_clause `{Float64} (sql param : string) (row : Row.t) : bool :=
  if String.eqb sql "AND agent_id = ?" then String.eqb (Row.agent_id row) param
  else if String.eqb sql "AND status = ?" then String.eqb (Row.status row) param
  else if String.eqb sql "AND started_at >= ?" then text_le param (Row.started_at row)
  else if String.eqb sql "AND started_at <= ?" then text_le (Row.started_at row) param
  else if String.eqb sql "AND steps LIKE ?" then sql_like (Row.steps row) param
  else if String.eqb sql "AND tools_used LIKE ?" then sql_like (Row.tools_used row) param
  else false.

(** [WHERE 1=1 AND ...]: the rows that meet every condition, in rowid
    order. *)
Definition sql_where `{Float64} (where_clauses params : list string) (rows : list Row.t) :
    list Row.t :=
  filter (λ row, forallb (λ cp, eval_clause (fst cp) (snd cp) row)
                   (zip where_clauses params) = true) rows.

(** [ORDER BY started_at DESC] is the SQL engine's: the statement fixes
    neither the order of rows with the same [started_at] nor the access
    path, which the engine picks from the conditions of the query and the
    values bound to them. *)
Class SqlEngine `{Float64} : Type := {
  order_by_started_at_desc : list string → list string → list Row.t → list Row.t;
}.

Definition started_desc `{Float64} (a b : Row.t) : Prop :=
  text_le (Row.started_at b) (Row.started_at a) = true.

Class SqlEngineLaws `{SqlEngine} : Prop := {
  order_by_permutation : ∀ w p rows, order_by_started_at_desc w p rows ≡ₚ rows;
  order_by_sorted : ∀ w p rows,
    StronglySorted started_desc (order_by_started_at_desc w p rows);
}.

Module EpisodeStore.

(** The store object: [_db] is [None] until [init] opens the database,
    and then holds the rows of the table. *)
Record t `{Float64} : Type := mk {
  db_path : string;
  _db : option (list Row.t);
}.

(** [init] opens the database file, whose table holds [disk] (no row for
    a new file). *)
Definition init `{Float64} (self : t) (disk : list Row.t) : t :=
  mk _ (db_path self) (Some disk).

Definition close `{Float64} (self : t) : t := mk _ (db_path self) None.

(** Convert a database row to an Episode model. *)
Definition _row_to_episode `{Float64} (now : datetime) (row : Row.t) : outcome Episode.t :=
  steps_data ← or_raise JSONDecodeError (json_loads (Row.steps row));
  steps ←
    match steps_data with
    | JList l =>
        traverse (λ s, match s with
                       | JDict kw => EpisodeStep.validate now kw
                       | _ => Raised TypeError
                       end) l
    | JDict [] | JStr EmptyString => Returned []
    | _ => Raised TypeError
    end;
  tools ← or_raise JSONDecodeError (json_loads (Row.tools_used row));
  meta ← or_raise JSONDecodeError (json_loads (Row.metadata row));
  status ← or_raise ValidationError (EpisodeStatus_of_value (Row.status row));
  tools_used ← field_str_list tools;
  metadata ← match meta with JDict d => Returned d | _ => Raised ValidationError end;
  Episode.init (Row.episode_id row) (Row.agent_id row) status steps tools_used
    (Row.total_tokens row) (Row.total_cost_usd row) (Row.total_duration_ms row)
    (Row.step_count row) (Row.started_at row) (Row.ended_at row) metadata.

(** Convert a database row to a lightweight summary. *)
Definition _row_to_summary `{Float64} (row : Row.t) : outcome EpisodeSummary.t :=
  tools ← or_raise JSONDecodeError (json_loads (Row.tools_used row));
  status ← or_raise ValidationError (EpisodeStatus_of_value (Row.status row));
  tools_used ← field_str_list tools;
  Returned (EpisodeSummary.mk _ (Row.episode_id row) (Row.agent_id row) status tools_used
              (Row.total_tokens row) (Row.total_cost_usd row)
              (Row.total_duration_ms row) (Row.step_count row) (Row.started_at row)
              (Row.ended_at row)).

(** The row [save] inserts for an episode whose aggregates are computed. *)
Definition row_of_episode `{Float64} (episode : Episode.t) : Row.t :=
  let steps_json :=
    json_dumps (JList (map (λ s, JDict (EpisodeStep.model_dump s)) (Episode.steps episode))) in
  let tools_json := json_dumps (JList (map JStr (Episode.tools_used episode))) in
  let meta_json := json_dumps (JDict (Episode.metadata episode)) in
  Row.mk _ (Episode.episode_id episode) (Episode.agent_id episode)
    (EpisodeStatus_value (Episode.status episode)) steps_json tools_json
    (Episode.total_tokens episode) (Episode.total_cost_usd episode)
    (Episode.total_duration_ms episode) (Episode.step_count episode)
    (Episode.started_at episode) (Episode.ended_at episode) meta_json.

(** An [int] bound to a parameter of a statement must fit SQLite's
    64-bit [INTEGER]. *)
Definition sqlite_int (z : Z) : bool := (- 2 ^ 63 <=? z) && (z <? 2 ^ 63).

(** Insert an episode into the database.  Computes aggregates from steps
    before saving.  The parameters are bound before the statement runs:
    an [int] out of range raises there.  Then the table refuses a NaN,
    which it takes for [NULL], in the column of the cost, and the primary
    key rejects an identifier already there. *)
Definition save `{Float64} (self : t) (episode : Episode.t) : outcome (Episode.t * t) :=
  match _db self with
  | None => Raised AssertionError
  | Some rows =>
      let episode := Episode.compute_aggregates episode in
      let row := row_of_episode episode in
      if negb (sqlite_int (Row.total_tokens row) && sqlite_int (Row.total_duration_ms row)
               && sqlite_int (Row.step_count row))
      then Raised OverflowError
      else if float_isnan (Row.total_cost_usd row) then Raised IntegrityError
      else if existsb (λ r, String.eqb (Row.episode_id r) (Row.episode_id row)) rows
      then Raised IntegrityError
      else Returned (episode, mk _ (db_path self) (Some (rows ++ [row])))
  end.

(** Create a new episode from an ingest payload; [now] is the clock and
    [uuid] the identifier drawn for the episode. *)
Definition create `{Float64} (self : t) (now : datetime) (uuid : string)
    (payload : EpisodeCreate.t) : outcome (Episode.t * t) :=
  let ended :=
    if bool_decide (EpisodeCreate.status payload ≠ RUNNING) then Some now else None in
  episode ← Episode.init uuid (EpisodeCreate.agent_id payload)
               (EpisodeCreate.status payload) (EpisodeCreate.steps payload)
               [] 0 float_zero 0 0 now ended (EpisodeCreate.metadata payload);
  save self episode.

(** Fetch a single episode by ID.  Returns [None] if not found. *)
Definition get `{Float64} (self : t) (now : datetime) (episode_id : string) :
    outcome (option Episode.t) :=
  match _db self with
  | None => Raised AssertionError
  | Some rows =>
      match find (λ r, String.eqb (Row.episode_id r) episode_id) rows with
      | None => Returned None
      | Some row => e ← _row_to_episode now row; Returned (Some e)
      end
  end.

(** [where_clauses.append(sql); params.append(param)] under its guard. *)
Definition push (acc : list string * list string) (guard : bool) (sql : string)
    (param : option string) : list string * list string :=
  match param with
  | Some p => if guard then (fst acc ++ [sql], snd acc ++ [p]) else acc
  | None => acc
  end.

Definition quote : string := String "034" EmptyString.

(** The conditions that [list], [count] and [export_jsonl] share. *)
Definition agent_status_filters (agent_id status : option string) :
    list string * list string :=
  let acc := ([], []) in
  let acc := push acc (truthy agent_id) "AND agent_id = ?" agent_id in
  let acc := push acc (truthy status) "AND status = ?" status in
  acc.

Definition date_filters (acc : list string * list string) (since until : option datetime) :
    list string * list string :=
  let acc := push acc true "AND started_at >= ?" since in
  let acc := push acc true "AND started_at <= ?" until in
  acc.

Definition list_filters (agent_id status : option string) (since until : option datetime)
    (model provider tool : option string) : list string * list string :=
  let acc := agent_status_filters agent_id status in
  let acc := date_filters acc since until in
  let acc := push acc (truthy model) "AND steps LIKE ?"
               ((λ m, "%" +:+ quote +:+ "model" +:+ quote +:+ ": " +:+ quote +:+ m
                      +:+ quote +:+ "%") <$> model) in
  let acc := push acc (truthy provider) "AND steps LIKE ?"
               ((λ m, "%" +:+ quote +:+ "provider" +:+ quote +:+ ": " +:+ quote +:+ m
                      +:+ quote +:+ "%") <$> provider) in
  let acc := push acc (truthy tool) "AND tools_used LIKE ?"
               ((λ m, "%" +:+ quote +:+ m +:+ quote +:+ "%") <$> tool) in
  acc.

(** The rows of [... WHERE 1=1 <conditions> ORDER BY started_at DESC]. *)
Definition select_ordered `{SqlEngine} (filters : list string * list string)
    (rows : list Row.t) : list Row.t :=
  order_by_started_at_desc (fst filters) (snd filters)
    (sql_where (fst filters) (snd filters) rows).

(** Count episodes matching filters. *)
Definition count `{Float64} (self : t) (agent_id status : option string) : outcome Z :=
  match _db self with
  | None => Raised AssertionError
  | Some rows =>
      let filters := agent_status_filters agent_id status in
      Returned (Z.of_nat (length (sql_where (fst filters) (snd filters) rows)))
  end.

(** Build a replay-ready view of an episode. *)
Definition get_replay `{Float64} (self : t) (now : datetime) (episode_id : string) :
    outcome (option EpisodeReplay.t) :=
  episode ← get self now episode_id;
  match episode with
  | None => Returned None
  | Some episode =>
      let replay_steps :=
        imap (λ i s,
                ReplayStep.mk _ (Z.of_nat i) (EpisodeStep.step_type s)
                  (EpisodeStep.tool_name s) (EpisodeStep.model s) (EpisodeStep.provider s)
                  (EpisodeStep.input_summary s) (EpisodeStep.output_summary s)
                  (EpisodeStep.tokens s) (EpisodeStep.cost_usd s)
                  (EpisodeStep.duration_ms s) (EpisodeStep.metadata s))
             (Episode.steps episode) in
      Returned (Some (EpisodeReplay.mk _ (Episode.episode_id episode)
                        (Episode.agent_id episode) (Episode.status episode) replay_steps
                        (Episode.total_tokens episode) (Episode.total_cost_usd episode)
                        (Episode.tools_used episode)))
  end.

Definition compare_fields : list string :=
  ["step_type"; "tool_name"; "model"; "provider"; "input_summary"; "output_summary"]%string.

(** The inner loop of [diff] over the compared fields of one position:
    the records appended and whether the position differs. *)
Definition diff_fields `{Float64} (i : nat) (ls rs : EpisodeStep.t) :
    list StepDiff.t * bool :=
  fold_left
    (λ acc field,
       let lv := EpisodeStep.getattr_str ls field in
       let rv := EpisodeStep.getattr_str rs field in
       if negb (String.eqb lv rv)
       then (fst acc ++ [StepDiff.mk (Z.of_nat i) field (Some lv) (Some rv)], true)
       else acc)
    compare_fields ([], false).

(** One turn of the outer loop, at position [i]; the state is
    [(step_diffs, matching, differing)]. *)
Definition diff_turn `{Float64} (left_steps right_steps : list EpisodeStep.t)
    (acc : list StepDiff.t * Z * Z) (i : nat) : list StepDiff.t * Z * Z :=
  let '(step_diffs, matching, differing) := acc in
  match left_steps !! i, right_steps !! i with
  | Some ls, Some rs =>
      let '(records, step_has_diff) := diff_fields i ls rs in
      if step_has_diff then (step_diffs ++ records, matching, differing + 1)
      else (step_diffs ++ records, matching + 1, differing)
  | _, _ => acc
  end.

(** Compare two episodes step-by-step.  Returns [None] if either episode
    doesn't exist. *)
Definition diff `{Float64} (self : t) (now : datetime) (left_id right_id : string) :
    outcome (option EpisodeDiff.t) :=
  left_ep ← get self now left_id;
  right_ep ← get self now right_id;
  match left_ep, right_ep with
  | Some left_ep, Some right_ep =>
      let left_steps := Episode.steps left_ep in
      let right_steps := Episode.steps right_ep in
      let min_len := min (length left_steps) (length right_steps) in
      let '(step_diffs, matching, differing) :=
        fold_left (diff_turn left_steps right_steps) (seq 0 min_len) ([], 0, 0) in
      let left_count := Z.of_nat (length left_steps) in
      let right_count := Z.of_nat (length right_steps) in
      Returned (Some (EpisodeDiff.mk _ left_id right_id left_count right_count
                        matching differing
                        (Z.max 0 (left_count - right_count))
                        (Z.max 0 (right_count - left_count))
                        (Episode.total_tokens right_ep - Episode.total_tokens left_ep)
                        (float_round6 (float_sub (Episode.total_cost_usd right_ep)
                                         (Episode.total_cost_usd left_ep)))
                        (Episode.total_duration_ms right_ep
                         - Episode.total_duration_ms left_ep)
                        step_diffs))
  | _, _ => Returned None
  end.

(** Export episodes as a list of dicts (for JSONL serialization). *)
Definition export_jsonl `{SqlEngine} (self : t) (now : datetime)
    (agent_id status : option string) (since until : option datetime) :
    outcome (list (list (string * json))) :=
  match _db self with
  | None => Raised AssertionError
  | Some rows =>
      let filters := date_filters (agent_status_filters agent_id status) since until in
      traverse (λ r, Episode.model_dump <$> _row_to_episode now r)
        (select_ordered filters rows)
  end.

(** List episodes with optional filters. *)
Definition list `{SqlEngine} (self : t) (agent_id status : option string)
    (since until : option datetime) (model provider tool : option string)
    (limit offset : Z) : outcome (Datatypes.list EpisodeSummary.t) :=
  match _db self with
  | None => Raised AssertionError
  | Some rows =>
      let filters := list_filters agent_id status since until model provider tool in
      traverse _row_to_summary
        (sql_limit_offset limit offset (select_ordered filters rows))
  end.

End EpisodeStore.

(** ** Engines and floats to run the store on *)

(** Insertion of [x] before the first element that is not newer, so that
    [newest_first] keeps rows with equal keys in their order. *)
Fixpoint insert_newest {A : Type} (key : A → string) (x : A) (sorted : list A) : list A :=
  match sorted with
  | [] => [x]
  | y :: rest =>
      if text_le (key y) (key x) then x :: sorted else y :: insert_newest key x rest
  end.

Definition newest_first {A : Type} (key : A → string) (xs : list A) : list A :=
  foldr (insert_newest key) [] xs.

(** An engine that scans the table and sorts what it finds: rows with the
    same [started_at] stay in rowid order. *)
Definition sorter_engine `{Float64} : SqlEngine :=
  {| order_by_started_at_desc := λ _ _ rows, newest_first Row.started_at rows |}.

(** An engine that walks the index on [started_at] backwards, as SQLite
    does for the statement without conditions: rows with the same
    [started_at] come in descending rowid order. *)
Definition index_engine `{Float64} : SqlEngine :=
  {| order_by_started_at_desc := λ _ _ rows, newest_first Row.started_at (rev rows) |}.

(** Doubles that are whole multiples of one half, counted in halves, with
    the two infinities and NaN: on the multiples [+], [-] and
    [round(x, 6)] are exact and [repr] writes [k.0] or [k.5]. *)
Inductive half : Type :=
  | Half (n : Z)
  | HalfInf
  | HalfNegInf
  | HalfNaN.

Definition half_repr (n : Z) : list ascii :=
  (if n <? 0 then ["-"%char] else []) ++ int_repr (Z.abs n / 2)
  ++ (if Z.even n then ["."; "0"]%char else ["."; "5"]%char).

Definition half_of_repr (tok : list ascii) : option Z :=
  let '(neg, body) :=
    match tok with
    | c :: r => if Ascii.eqb c "-" then (true, r) else (false, tok)
    | [] => (false, tok)
    end in
  match rev body with
  | d :: p :: ds =>
      if Ascii.eqb p "." then
        k ← int_of_literal (rev ds);
        h ← (if Ascii.eqb d "0" then Some 0 else if Ascii.eqb d "5" then Some 1 else None);
        Some ((if neg : bool then -1 else 1) * (2 * k + h))
      else None
  | _ => None
  end.

Definition half_add (a b : half) : half :=
  match a, b with
  | HalfNaN, _ | _, HalfNaN => HalfNaN
  | HalfInf, HalfNegInf | HalfNegInf, HalfInf => HalfNaN
  | HalfInf, _ | _, HalfInf => HalfInf
  | HalfNegInf, _ | _, HalfNegInf => HalfNegInf
  | Half m, Half n => Half (m + n)
  end.

Definition half_neg (a : half) : half :=
  match a with
  | Half n => Half (- n)
  | HalfInf => HalfNegInf
  | HalfNegInf => HalfInf
  | HalfNaN => HalfNaN
  end.

Definition half_ge0 (a : half) : bool :=
  match a with
  | Half n => 0 <=? n
  | HalfInf => true
  | HalfNegInf | HalfNaN => false
  end.

Definition half_eqb (a b : half) : bool :=
  match a, b with
  | Half m, Half n => m =? n
  | HalfInf, HalfInf | HalfNegInf, HalfNegInf => true
  | _, _ => false
  end.

Definition half_text (a : half) : list ascii :=
  match a with
  | Half n => half_repr n
  | HalfInf => list_ascii_of_string "inf"
  | HalfNegInf => list_ascii_of_string "-inf"
  | HalfNaN => list_ascii_of_string "nan"
  end.

Definition half_float : Float64 := {|
  float := half;
  float_zero := Half 0;
  float_inf := HalfInf;
  float_nan := HalfNaN;
  float_sum := λ xs, fold_left half_add xs (Half 0);
  float_sub := λ a b, half_add a (half_neg b);
  float_neg := half_neg;
  float_round6 := λ x, x;
  float_ge0 := half_ge0;
  float_eqb := half_eqb;
  float_repr := half_text;
  float_of_repr := λ tok, Half <$> half_of_repr tok;
|}.

(** ** Vocabulary of the statements *)

(** Sum of a list of integers, by recursion on the list. *)
Definition spec_total (xs : list Z) : Z := foldr Z.add 0 xs.

(** The first occurrences of the elements of a list, in order. *)
Fixpoint dedup_first (xs : list string) : list string :=
  match xs with
  | [] => []
  | x :: rest => x :: filter (λ y, y ≠ x) (dedup_first rest)
  end.

(** The tool names of the steps that have a non-empty one. *)
Definition named_tools `{Float64} (steps : list EpisodeStep.t) : list string :=
  filter (λ name, name ≠ EmptyString) (omap EpisodeStep.tool_name steps).

(** The field mismatches of two steps at position [i], one record each. *)
Definition field_mismatches `{Float64} (i : nat) (ls rs : EpisodeStep.t) : list StepDiff.t :=
  omap (λ field,
          let lv := EpisodeStep.getattr_str ls field in
          let rv := EpisodeStep.getattr_str rs field in
          if decide (lv = rv) then None
          else Some (StepDiff.mk (Z.of_nat i) field (Some lv) (Some rv)))
       EpisodeStore.compare_fields.

(** The records of a positional comparison of two step sequences. *)
Definition positional_diffs `{Float64} (ls rs : list EpisodeStep.t) : list StepDiff.t :=
  concat (imap (λ i p, field_mismatches i (fst p) (snd p)) (zip ls rs)).

Definition swap_sides (d : StepDiff.t) : StepDiff.t :=
  StepDiff.mk (StepDiff.step_index d) (StepDiff.field d) (StepDiff.right d) (StepDiff.left d).

(** A step as the row gives it back: the metadata went through
    [mode="json"]. *)
Definition stored_step `{Float64} (s : EpisodeStep.t) : EpisodeStep.t :=
  EpisodeStep.mk _ (EpisodeStep.step_index s) (EpisodeStep.step_type s)
    (EpisodeStep.air_record_id s) (EpisodeStep.tool_name s) (EpisodeStep.model s)
    (EpisodeStep.provider s) (EpisodeStep.input_summary s) (EpisodeStep.output_summary s)
    (EpisodeStep.tokens s) (EpisodeStep.cost_usd s) (EpisodeStep.duration_ms s)
    (EpisodeStep.timestamp s) (EpisodeStep.error s)
    (jsonable_items (EpisodeStep.metadata s)).

(** The episode that the row of an episode gives back. *)
Definition persisted `{Float64} (e : Episode.t) : Episode.t :=
  Episode.mk _ (Episode.episode_id e) (Episode.agent_id e) (Episode.status e)
    (stored_step <$> Episode.steps e) (Episode.tools_used e) (Episode.total_tokens e)
    (Episode.total_cost_usd e) (Episode.total_duration_ms e) (Episode.step_count e)
    (Episode.started_at e) (Episode.ended_at e) (Episode.metadata e).

(** No infinity and no NaN inside the metadata of the steps. *)
Definition plain_metadata `{Float64} (steps : list EpisodeStep.t) : Prop :=
  Forall (λ s, jsonable_items (EpisodeStep.metadata s) = EpisodeStep.metadata s) steps.

(** An episode as the class, [compute_aggregates] and the trip through
    the row leave it. *)
Definition saved_episode `{Float64} (e : Episode.t) : Prop :=
  Episode.agent_id e ≠ EmptyString
  ∧ Forall EpisodeStep.valid (Episode.steps e)
  ∧ plain_metadata (Episode.steps e)
  ∧ Episode.compute_aggregates e = e.

(** The number of the steps and the sums of their tokens and durations
    fit SQLite's [INTEGER]. *)
Definition sqlite_fits `{Float64} (steps : list EpisodeStep.t) : bool :=
  EpisodeStore.sqlite_int (spec_total (map EpisodeStep.tokens steps))
  && EpisodeStore.sqlite_int (spec_total (map EpisodeStep.duration_ms steps))
  && EpisodeStore.sqlite_int (Z.of_nat (length steps)).

(** The store is open and holds the episodes [es], oldest insertion
    first, each written by [save] under an identifier of its own. *)
Definition holds `{Float64} (store : EpisodeStore.t) (es : list Episode.t) : Prop :=
  EpisodeStore._db store = Some (map EpisodeStore.row_of_episode es)
  ∧ Forall saved_episode es
  ∧ NoDup (map Episode.episode_id es).

(** Proof vocabulary of the JSON reader. *)
Fixpoint json_size `{Float64} (v : json) : nat :=
  match v with
  | JList l => S (list_sum (map (λ x, S (json_size x)) l))
  | JDict d => S (list_sum (map (λ kv, S (json_size (snd kv))) d))
  | _ => 1
  end.

Definition ends_token (rest : list ascii) : Prop :=
  match rest with
  | [] => True
  | c :: _ => number_char c = false
  end.

Definition value_start (c : ascii) : Prop :=
  is_ws c = false ∧ c ≠ "]"%char ∧ c ≠ "}"%char.

Definition reads_back `{Float64} (v : json) : Prop :=
  ∀ fuel rest, (json_size v ≤ fuel)%nat → ends_token rest →
    parse_value fuel (dumps v ++ rest) = Some (v, rest).

Definition member_text `{Float64} (kv : string * json) : list ascii :=
  encode_str (fst kv) ++ [":"; " "]%char ++ dumps (snd kv).

(** Newest first: each element is at least as new as those after it. *)
Definition newer_first {A : Type} (key : A → string) (a b : A) : Prop :=
  text_le (key b) (key a) = true.

(** Two steps differ when some compared field renders differently. *)
Definition steps_differ `{Float64} (ls rs : EpisodeStep.t) : Prop :=
  Exists (λ field, EpisodeStep.getattr_str ls field ≠ EpisodeStep.getattr_str rs field)
    EpisodeStore.compare_fields.

(** The state of the loop of [diff] once the positions of two sequences
    of the same length are compared. *)
Definition diff_state `{Float64} (ls rs : list EpisodeStep.t) : list StepDiff.t * Z * Z :=
  (positional_diffs ls rs,
   Z.of_nat (length (filter (λ p, ¬ steps_differ (fst p) (snd p)) (zip ls rs))),
   Z.of_nat (length (filter (λ p, steps_differ (fst p) (snd p)) (zip ls rs)))).

(** The records of the positions from [k] on. *)
Definition positional_from `{Float64} (k : nat) (ls rs : list EpisodeStep.t) :
    list StepDiff.t :=
  concat (imap (λ i p, field_mismatches (k + i) (fst p) (snd p)) (zip ls rs)).

(** The fields a replay step takes over from its step. *)
Definition replay_fields : list string :=
  ["step_type"; "tool_name"; "model"; "provider"; "input_summary"; "output_summary";
   "tokens"; "cost_usd"; "duration_ms"; "metadata"]%string.

(** The conditions [list] and [export_jsonl] share, on an episode. *)
Definition shared_match `{Float64} (agent_id status : option string)
    (since until : option datetime) (e : Episode.t) : bool :=
  (negb (truthy agent_id) || bool_decide (agent_id = Some (Episode.agent_id e)))
  && (negb (truthy status)
      || bool_decide (status = Some (EpisodeStatus_value (Episode.status e))))
  && from_option (λ s, text_le s (Episode.started_at e)) true since
  && from_option (λ u, text_le (Episode.started_at e) u) true until.

(** The filters of the specification: an episode matches a model or a
    provider when one of its steps has it, and a tool when the tool is in
    its [tools_used]. *)
Definition uses_model `{Float64} (name : string) (e : Episode.t) : Prop :=
  Exists (λ s, EpisodeStep.model s = Some name) (Episode.steps e).

Definition uses_provider `{Float64} (name : string) (e : Episode.t) : Prop :=
  Exists (λ s, EpisodeStep.provider s = Some name) (Episode.steps e).

Definition uses_tool `{Float64} (name : string) (e : Episode.t) : Prop :=
  name ∈ Episode.tools_used e.

(** The episode that [create] builds from a payload. *)
Definition created `{Float64} (now : datetime) (uuid : string) (p : EpisodeCreate.t) :
    Episode.t :=
  Episode.compute_aggregates
    (Episode.mk _ uuid (EpisodeCreate.agent_id p) (EpisodeCreate.status p)
       (EpisodeCreate.steps p) [] 0 float_zero 0 0 now
       (if bool_decide (EpisodeCreate.status p ≠ RUNNING) then Some now else None)
       (EpisodeCreate.metadata p)).

(** The creation of the specification: [create] returns an episode and
    persists it, so that [get] finds it, with the aggregates of the steps
    of the payload. *)
Definition persists_aggregates `{Float64} (store : EpisodeStore.t) (now : datetime)
    (uuid : string) (p : EpisodeCreate.t) : Prop :=
  ∃ episode store' stored,
    EpisodeStore.create store now uuid p = Returned (episode, store')
    ∧ EpisodeStore.get store' now (Episode.episode_id episode) = Returned (Some stored)
    ∧ Episode.step_count stored = Z.of_nat (length (EpisodeCreate.steps p))
    ∧ Episode.total_tokens stored
      = spec_total (map EpisodeStep.tokens (EpisodeCreate.steps p))
    ∧ Episode.total_cost_usd stored
      = float_round6 (float_sum (map EpisodeStep.cost_usd (EpisodeCreate.steps p)))
    ∧ Episode.total_duration_ms stored
      = spec_total (map EpisodeStep.duration_ms (EpisodeCreate.steps p))
    ∧ Episode.tools_used stored = dedup_first (named_tools (EpisodeCreate.steps p)).

(** The round trip of the specification: [get] on the identifier of the
    episode that [create] returned gives back that episode. *)
Definition get_returns_created `{Float64} (store : EpisodeStore.t) (now : datetime)
    (uuid : string) (p : EpisodeCreate.t) : Prop :=
  ∃ episode store',
    EpisodeStore.create store now uuid p = Returned (episode, store')
    ∧ EpisodeStore.get store' now (Episode.episode_id episode) = Returned (Some episode).

(** The cost deltas of the specification: the delta of a comparison is
    the negation, as [==] has it, of the delta of the swapped one. *)
Definition cost_deltas_negate `{Float64} (store : EpisodeStore.t) (now : datetime)
    (a_id b_id : string) : Prop :=
  ∃ dab dba,
    EpisodeStore.diff store now a_id b_id = Returned (Some dab)
    ∧ EpisodeStore.diff store now b_id a_id = Returned (Some dba)
    ∧ float_eqb (EpisodeDiff.cost_delta dab) (float_neg (EpisodeDiff.cost_delta dba))
      = true.

(** The replay of the specification: every field of a step other than its
    index, timestamp and error is found, unchanged, in its replay step. *)
Definition replay_keeps_other_fields `{Float64} (store : EpisodeStore.t) (now : datetime)
    (id : string) : Prop :=
  ∀ e r i s rs,
    EpisodeStore.get store now id = Returned (Some e) →
    EpisodeStore.get_replay store now id = Returned (Some r) →
    Episode.steps e !! i = Some s → EpisodeReplay.replay_steps r !! i = Some rs →
    ∀ k, k ∈ map fst (EpisodeStep.model_dump s) →
         k ∉ ["step_index"; "timestamp"; "error"]%string →
         kwarg k (ReplayStep.model_dump rs) = kwarg k (EpisodeStep.model_dump s).

(** The listing of the specification: without filters, [list] returns the
    summaries of all the episodes, newest first, those of one instant in
    insertion order. *)
Definition lists_all_newest_first `{SqlEngine} (store : EpisodeStore.t)
    (es : list Episode.t) : Prop :=
  EpisodeStore.list store None None None None None None None 50 0
  = Returned (EpisodeSummary.of_episode <$> newest_first Episode.started_at es).

(** ** Sample stores, on the half-unit doubles *)

Section Samples.
#[local] Existing Instance half_float.

Definition new_store : @EpisodeStore.t half_float :=
  EpisodeStore.init (EpisodeStore.mk half_float "episodes.db" None) [].

(** The store after [create], or the store itself when [create] raises. *)
Definition after_create (store : @EpisodeStore.t half_float) (now : datetime)
    (uuid : string) (payload : @EpisodeCreate.t half_float) : @EpisodeStore.t half_float :=
  match EpisodeStore.create store now uuid payload with
  | Returned (_, store') => store'
  | Raised _ => store
  end.

Definition llm_step : @EpisodeStep.t half_float :=
  EpisodeStep.mk half_float 0 LLM_CALL None None (Some "gpt-4") (Some "openai")
    (Some "Hello") (Some "Hi there") 150 (Half 1) 800 "2024-01-01T00:00:00Z" None
    [("temperature", JFloat (Half 1))]%string.

Definition tool_step : @EpisodeStep.t half_float :=
  EpisodeStep.mk half_float 7 TOOL_CALL (Some "air-1") (Some "web_search") None None
    None None 200 (Half 3) 1200 "2024-01-01T00:00:01Z" (Some "timeout") [].

Definition payload_a : @EpisodeCreate.t half_float :=
  EpisodeCreate.mk half_float "agent-a" [llm_step; tool_step] SUCCESS
    [("experiment", JStr "v1")]%string.

Definition payload_b : @EpisodeCreate.t half_float :=
  EpisodeCreate.mk half_float "agent-b" [tool_step] FAILURE [].

(** Two episodes created at the same instant. *)
Definition store_a : @EpisodeStore.t half_float :=
  after_create new_store "2024-01-02T00:00:00+00:00" "id-a" payload_a.

Definition store_ab : @EpisodeStore.t half_float :=
  after_create store_a "2024-01-02T00:00:00+00:00" "id-b" payload_b.

Definition episode_a : @Episode.t half_float :=
  created "2024-01-02T00:00:00+00:00" "id-a" payload_a.

Definition episode_b : @Episode.t half_float :=
  created "2024-01-02T00:00:00+00:00" "id-b" payload_b.

(** An episode whose step names no model and no provider but carries both
    keys in its metadata. *)
Definition tagged_step : @EpisodeStep.t half_float :=
  EpisodeStep.mk half_float 0 TOOL_CALL None (Some "web-search") None None None None
    10 (Half 0) 5 "2024-01-01T00:00:00Z" None
    [("model", JStr "gpt-4"); ("provider", JStr "openai")]%string.

Definition payload_tagged : @EpisodeCreate.t half_float :=
  EpisodeCreate.mk half_float "agent-t" [tagged_step] SUCCESS [].

Definition store_tagged : @EpisodeStore.t half_float :=
  after_create new_store "2024-01-02T00:00:00+00:00" "id-t" payload_tagged.

Definition episode_tagged : @Episode.t half_float :=
  created "2024-01-02T00:00:00+00:00" "id-t" payload_tagged.

(** Two steps whose tokens add up to [2 ^ 63]. *)
Definition huge_step : @EpisodeStep.t half_float :=
  EpisodeStep.mk half_float 0 LLM_CALL None None (Some "gpt-4") (Some "openai") None None
    (2 ^ 62) (Half 0) 0 "2024-01-01T00:00:00Z" None [].

Definition payload_huge : @EpisodeCreate.t half_float :=
  EpisodeCreate.mk half_float "agent-h" [huge_step; huge_step] SUCCESS [].

(** A step with a NaN in its metadata. *)
Definition scored_step : @EpisodeStep.t half_float :=
  EpisodeStep.mk half_float 0 LLM_CALL None None (Some "gpt-4") (Some "openai") None None
    10 (Half 1) 5 "2024-01-01T00:00:00Z" None [("score", JFloat HalfNaN)]%string.

Definition payload_scored : @EpisodeCreate.t half_float :=
  EpisodeCreate.mk half_float "agent-s" [scored_step] SUCCESS [].

(** Two episodes of one step each, which differ in the tool of the step:
    none on the left, the tool named [None] on the right. *)
Definition untooled_step : @EpisodeStep.t half_float :=
  EpisodeStep.mk half_float 0 TOOL_CALL None None None None None None
    10 (Half 0) 5 "2024-01-01T00:00:00Z" None [].

Definition none_tool_step : @EpisodeStep.t half_float :=
  EpisodeStep.mk half_float 0 TOOL_CALL None (Some "None") None None None None
    10 (Half 0) 5 "2024-01-01T00:00:00Z" None [].

Definition payload_untooled : @EpisodeCreate.t half_float :=
  EpisodeCreate.mk half_float "agent-n" [untooled_step] SUCCESS [].

Definition payload_none_tool : @EpisodeCreate.t half_float :=
  EpisodeCreate.mk half_float "agent-n" [none_tool_step] SUCCESS [].

Definition store_none : @EpisodeStore.t half_float :=
  after_create (after_create new_store "2024-01-02T00:00:00+00:00" "id-l" payload_untooled)
    "2024-01-02T00:00:00+00:00" "id-r" payload_none_tool.

Definition episode_untooled : @Episode.t half_float :=
  created "2024-01-02T00:00:00+00:00" "id-l" payload_untooled.

Definition episode_none_tool : @Episode.t half_float :=
  created "2024-01-02T00:00:00+00:00" "id-r" payload_none_tool.

(** Two episodes whose one step has an infinite cost. *)
Definition costly_step : @EpisodeStep.t half_float :=
  EpisodeStep.mk half_float 0 LLM_CALL None None (Some "gpt-4") (Some "openai") None None
    10 HalfInf 5 "2024-01-01T00:00:00Z" None [].

Definition payload_costly : @EpisodeCreate.t half_float :=
  EpisodeCreate.mk half_float "agent-c" [costly_step] SUCCESS [].

Definition store_costly : @EpisodeStore.t half_float :=
  after_create (after_create new_store "2024-01-02T00:00:00+00:00" "id-x" payload_costly)
    "2024-01-02T00:00:00+00:00" "id-y" payload_costly.

Definition episode_x : @Episode.t half_float :=
  created "2024-01-02T00:00:00+00:00" "id-x" payload_costly.

Definition episode_y : @Episode.t half_float :=
  created "2024-01-02T00:00:00+00:00" "id-y" payload_costly.

(** Fifty-one episodes. *)
Definition bulk_id (k : nat) : string :=
  String.append "id-" (string_of_list_ascii (int_repr (Z.of_nat k))).

Definition bulk_store : @EpisodeStore.t half_float :=
  foldl (λ store k, after_create store "2024-01-02T00:00:00+00:00" (bulk_id k) payload_b)
    new_store (seq 0 51).

Definition bulk_episodes : list (@Episode.t half_float) :=
  (λ k, created "2024-01-02T00:00:00+00:00" (bulk_id k) payload_b) <$> seq 0 51.

End Samples.

(* ================================================================== *)
(** * Properties *)

#[local] Set Warnings "-clear-no-such-hyp".

Section CodecFacts.
Context `{Float64Laws}.

Lemma json_ind_nested (P : json → Prop) :
  P JNull → (∀ b, P (JBool b)) → (∀ z, P (JInt z)) → (∀ f, P (JFloat f)) →
  (∀ s, P (JStr s)) →
  (∀ l, Forall P l → P (JList l)) →
  (∀ d, Forall (λ kv, P (snd kv)) d → P (JDict d)) →
  ∀ v, P v.
Proof.
  intros Hn Hb Hi Hf Hs Hl Hd.
  fix IH 1. intros [ | b | z | f | s | l | d].
  - exact Hn.
  - apply Hb.
  - apply Hi.
  - apply Hf.
  - apply Hs.
  - apply Hl. induction l as [|x l IHl]; constructor; [apply IH | exact IHl].
  - apply Hd. induction d as [|[k x] d IHd]; constructor; [apply IH | exact IHd].
Qed.

Lemma skip_ws_head c r : is_ws c = false → skip_ws (c :: r) = c :: r.
Proof. intros Hc. simpl. by rewrite Hc. Qed.

Lemma parse_str_encode_char c rest :
  parse_str (encode_char c ++ rest) = prepend c (parse_str rest).
Proof. destruct c as [[] [] [] [] [] [] [] []]; reflexivity. Qed.

Lemma parse_str_body cs rest :
  parse_str (flat_map encode_char cs ++ "034"%char :: rest) = Some (cs, rest).
Proof.
  induction cs as [|c cs IH]; [done|].
  simpl. rewrite <- app_assoc, parse_str_encode_char, IH. done.
Qed.

Lemma span_number_token tok rest :
  forallb number_char tok = true → ends_token rest →
  span_number (tok ++ rest) = (tok, rest).
Proof.
  intros Htok Hrest. induction tok as [|c tok IH]; simpl in *.
  - destruct rest as [|c r]; [done|]. simpl in *. by rewrite Hrest.
  - apply andb_prop in Htok as [-> Htok]. by rewrite IH.
Qed.

Lemma uint_digits d :
  forallb is_digit (list_ascii_of_string (NilEmpty.string_of_uint d)) = true.
Proof. induction d; simpl; auto. Qed.

Lemma to_uint_string p :
  ∃ c r, list_ascii_of_string (NilZero.string_of_uint (Pos.to_uint p)) = c :: r
         ∧ is_digit c = true ∧ forallb is_digit r = true.
Proof.
  pose proof (Unsigned.to_uint_nonnil p) as Hnil.
  pose proof (uint_digits (Pos.to_uint p)) as Hd.
  destruct (Pos.to_uint p) eqn:E; [done|..]; simpl in *; eauto.
Qed.

Lemma int_repr_shape z :
  ∃ c r, int_repr z = c :: r ∧ (is_digit c = true ∨ c = "-"%char ∧ r ≠ [])
         ∧ forallb is_digit r = true.
Proof.
  unfold int_repr. destruct z as [|p|p]; simpl.
  - exists "0"%char, []. auto.
  - destruct (to_uint_string p) as (c & r & -> & Hc & Hr). eauto 6.
  - destruct (to_uint_string p) as (c & r & E & Hc & Hr).
    exists "-"%char, (c :: r). rewrite E. simpl. rewrite Hc, Hr. auto.
Qed.

Lemma int_of_literal_repr z : int_of_literal (int_repr z) = Some z.
Proof.
  unfold int_of_literal. unfold int_repr at 1.
  rewrite string_of_list_ascii_of_string, NilZero.isi.
  - rewrite DecimalZ.of_to. by rewrite bool_decide_eq_true_2.
  - destruct z; simpl; try done. intros [= E]. by apply Unsigned.to_uint_nonnil in E.
  - destruct z; simpl; try done. intros [= E]. by apply Unsigned.to_uint_nonnil in E.
Qed.

Lemma is_digit_number_char c : is_digit c = true → number_char c = true.
Proof. unfold number_char. by intros ->. Qed.

Lemma forallb_digits_number r :
  forallb is_digit r = true → forallb number_char r = true.
Proof.
  induction r as [|c r IH]; simpl; [done|].
  intros [Hc Hr]%andb_prop. by rewrite (is_digit_number_char c Hc), IH.
Qed.

Lemma parse_number_int z rest :
  ends_token rest → parse_number (int_repr z ++ rest) = Some (JInt z, rest).
Proof.
  intros Hrest. unfold parse_number.
  destruct (int_repr_shape z) as (c & r & E & Hc & Hr).
  rewrite span_number_token; [|rewrite E; simpl|done].
  - replace (all_digits_signed (int_repr z)) with true.
    + by rewrite int_of_literal_repr.
    + rewrite E. simpl. rewrite Hr. destruct Hc as [-> | [-> _]]; done.
  - rewrite (forallb_digits_number r Hr).
    destruct Hc as [Hc | [-> _]]; [by rewrite (is_digit_number_char c Hc)|done].
Qed.

Lemma parse_number_float f rest :
  float_finite f = true → ends_token rest →
  parse_number (float_repr f ++ rest) = Some (JFloat f, rest).
Proof.
  intros Hf Hrest. unfold parse_number.
  rewrite span_number_token; [|by apply float_repr_chars|done].
  by rewrite float_repr_not_int, float_of_repr_repr.
Qed.

(** A value that starts with a number character is read as a number,
    when a minus sign comes before another number character. *)
Lemma parse_value_number n c r :
  number_char c = true →
  (c = "-"%char → ∃ d r', r = d :: r' ∧ number_char d = true) →
  parse_value (S n) (c :: r) = parse_number (c :: r).
Proof.
  intros Hc Hminus.
  destruct c as [[] [] [] [] [] [] [] []]; try discriminate Hc; try reflexivity.
  destruct (Hminus eq_refl) as (d & r' & -> & Hd).
  destruct d as [[] [] [] [] [] [] [] []]; try discriminate Hd; reflexivity.
Qed.

(** The text of a float is one of the three constants or, for a finite
    float, its [repr]. *)
Lemma floatstr_cases f :
  floatstr f = list_ascii_of_string "NaN" ∧ f = float_nan
  ∨ floatstr f = list_ascii_of_string "Infinity" ∧ f = float_inf
  ∨ floatstr f = list_ascii_of_string "-Infinity" ∧ f = float_neg float_inf
  ∨ floatstr f = float_repr f ∧ float_finite f = true.
Proof.
  unfold floatstr, float_finite.
  destruct (float_isnan f) eqn:Hnan; [left; split; [done|by apply float_isnan_nan]|].
  destruct (float_eqb f float_inf) eqn:Hinf;
    [right; left; split; [done|by apply float_eqb_inf]|].
  destruct (float_eqb f (float_neg float_inf)) eqn:Hninf;
    [right; right; left; split; [done|by apply float_eqb_neg_inf]|].
  by right; right; right.
Qed.

Lemma float_repr_shape f :
  float_finite f = true →
  ∃ c r, float_repr f = c :: r ∧ number_char c = true
         ∧ (c = "-"%char → ∃ d r', r = d :: r' ∧ number_char d = true).
Proof.
  intros Hf. pose proof (float_repr_nonempty f Hf) as Hne.
  pose proof (float_repr_chars f Hf) as Hch.
  pose proof (float_repr_not_int f Hf) as Hint.
  destruct (float_repr f) as [|c r]; [done|]. exists c, r.
  simpl in Hch. apply andb_prop in Hch as [Hc Hr]. split_and!; [done|done|].
  intros ->. destruct r as [|d r']; [discriminate Hint|].
  simpl in Hr. apply andb_prop in Hr as [Hd _]. eauto.
Qed.

Lemma number_char_not_ws c : number_char c = true → is_ws c = false.
Proof. destruct c as [[] [] [] [] [] [] [] []]; done. Qed.

Lemma number_char_start c : number_char c = true → value_start c.
Proof. destruct c as [[] [] [] [] [] [] [] []]; done. Qed.

Lemma dumps_head v : ∃ c r, dumps v = c :: r ∧ value_start c.
Proof.
  destruct v as [ | [] | z | f | s | l | d]; simpl;
    try (eexists _, _; split; [reflexivity|done]).
  - destruct (int_repr_shape z) as (c & r & -> & Hc & _).
    exists c, r. split; [done|]. apply number_char_start.
    destruct Hc as [Hc | [-> _]]; [by apply is_digit_number_char|done].
  - destruct (floatstr_cases f) as [[-> _]|[[-> _]|[[-> _]|[-> Hf]]]];
      try (eexists _, _; split; [reflexivity|done]).
    destruct (float_repr_shape f Hf) as (c & r & -> & Hc & _).
    exists c, r. split; [done|]. by apply number_char_start.
Qed.

Lemma join_cons2 sep p q ps : join sep (p :: q :: ps) = p ++ sep ++ join sep (q :: ps).
Proof. reflexivity. Qed.

#[local] Arguments join : simpl never.

Lemma parse_value_ws fuel s : parse_value fuel (" "%char :: s) = parse_value fuel s.
Proof. by destruct fuel. Qed.

Lemma parse_elems_ws fuel s : parse_elems fuel (" "%char :: s) = parse_elems fuel s.
Proof. destruct fuel; [done|]. simpl. by rewrite parse_value_ws. Qed.

Lemma parse_members_ws fuel s : parse_members fuel (" "%char :: s) = parse_members fuel s.
Proof. by destruct fuel. Qed.

Lemma parse_elems_dumps v l fuel rest :
  Forall reads_back (v :: l) →
  (list_sum (map (λ x, S (json_size x)) (v :: l)) ≤ fuel)%nat →
  parse_elems fuel (join [","; " "]%char (dumps v :: map dumps l) ++ "]"%char :: rest)
  = Some (v :: l, rest).
Proof.
  revert v fuel. induction l as [|w l IH]; intros v fuel Hall Hfuel.
  - apply Forall_cons in Hall as [Hv _].
    destruct fuel as [|n]; simpl in Hfuel; [lia|].
    simpl. unfold join. rewrite Hv; [|lia|done]. done.
  - apply Forall_cons in Hall as [Hv Hall].
    destruct fuel as [|n]; [simpl in Hfuel; lia|].
    rewrite !map_cons, join_cons2, <- ?app_assoc.
    simpl parse_elems. rewrite Hv; [|simpl in Hfuel; lia|done].
    simpl. rewrite parse_elems_ws, IH; [done|done|]. simpl in *. lia.
Qed.

Lemma parse_members_dumps k v d fuel rest :
  Forall (λ kv, reads_back (snd kv)) ((k, v) :: d) →
  (list_sum (map (λ kv, S (json_size (snd kv))) ((k, v) :: d)) ≤ fuel)%nat →
  parse_members fuel
    (join [","; " "]%char (member_text (k, v) :: map member_text d) ++ "}"%char :: rest)
  = Some ((k, v) :: d, rest).
Proof.
  revert k v fuel. induction d as [|[k' w] d IH]; intros k v fuel Hall Hfuel.
  - apply Forall_cons in Hall as [Hv _]. simpl in Hv.
    destruct fuel as [|n]; simpl in Hfuel; [lia|].
    unfold join, member_text, encode_str. simpl. rewrite <- ?app_assoc. simpl.
    rewrite parse_str_body. simpl. rewrite parse_value_ws.
    rewrite Hv; [|lia|done]. simpl.
    by rewrite string_of_list_ascii_of_string.
  - apply Forall_cons in Hall as [Hv Hall]. simpl in Hv.
    destruct fuel as [|n]; [simpl in Hfuel; lia|].
    rewrite !map_cons, join_cons2.
    unfold member_text at 1, encode_str. simpl fst. simpl snd.
    simpl app. rewrite <- ?app_assoc. simpl app.
    simpl parse_members. rewrite <- ?app_assoc. simpl app.
    rewrite parse_str_body. simpl. rewrite parse_value_ws.
    rewrite Hv; [|simpl in Hfuel; lia|done]. simpl.
    rewrite parse_members_ws, IH; [|done|simpl in *; lia].
    by rewrite string_of_list_ascii_of_string.
Qed.

Lemma dumps_list l :
  dumps (JList l) = "["%char :: join [","; " "]%char (map dumps l) ++ ["]"%char].
Proof. reflexivity. Qed.

Lemma dumps_dict d :
  dumps (JDict d) = "{"%char :: join [","; " "]%char (map member_text d) ++ ["}"%char].
Proof. reflexivity. Qed.

Lemma parse_value_list n r :
  parse_value (S n) ("["%char :: r) =
  match skip_ws r with
  | c1 :: r1 =>
      if Ascii.eqb c1 "]" then Some (JList [], r1)
      else '(vs, r2) ← parse_elems n r; Some (JList vs, r2)
  | [] => None
  end.
Proof. reflexivity. Qed.

Lemma parse_value_dict n r :
  parse_value (S n) ("{"%char :: r) =
  match skip_ws r with
  | c1 :: r1 =>
      if Ascii.eqb c1 "}" then Some (JDict [], r1)
      else '(kvs, r2) ← parse_members n r; Some (JDict kvs, r2)
  | [] => None
  end.
Proof. reflexivity. Qed.

Lemma parse_value_dumps v : reads_back v.
Proof.
  induction v as [ | b | z | f | s | l IH | d IH] using json_ind_nested;
    intros fuel rest Hfuel Hrest; (destruct fuel as [|n]; [simpl in Hfuel; lia|]).
  - reflexivity.
  - destruct b; reflexivity.
  - simpl dumps. destruct (int_repr_shape z) as (c & r & E & Hc & Hr).
    rewrite <- (parse_number_int z rest Hrest). rewrite E. simpl app.
    apply parse_value_number.
    + destruct Hc as [Hc | [-> _]]; [by apply is_digit_number_char|done].
    + intros ->. destruct Hc as [Hc | [_ Hne]]; [discriminate Hc|].
      destruct r as [|d r']; [done|]. exists d, (r' ++ rest). split; [done|].
      simpl in Hr. apply andb_prop in Hr as [Hd _]. by apply is_digit_number_char.
  - simpl dumps.
    destruct (floatstr_cases f) as [[-> ->]|[[-> ->]|[[-> ->]|[-> Hf]]]];
      [reflexivity..|].
    rewrite <- (parse_number_float f rest Hf Hrest).
    destruct (float_repr_shape f Hf) as (c & r & -> & Hc & Hminus). simpl app.
    apply parse_value_number; [done|].
    intros Heq. destruct (Hminus Heq) as (d & r' & -> & Hd). by exists d, (r' ++ rest).
  - simpl dumps. unfold encode_str. simpl. rewrite <- app_assoc. simpl.
    rewrite parse_str_body. simpl. by rewrite string_of_list_ascii_of_string.
  - destruct l as [|v l]; [reflexivity|].
    rewrite dumps_list, map_cons. simpl app. rewrite <- app_assoc. simpl app.
    pose proof (parse_elems_dumps v l n rest IH) as Hel.
    destruct (dumps_head v) as (c & r & E & Hws & Hc & _).
    assert (Hsk : ∃ t, join [","; " "]%char (dumps v :: map dumps l) = c :: t).
    { destruct l; [unfold join; simpl; rewrite E; eauto|].
      rewrite !map_cons, join_cons2, E. simpl. eauto. }
    destruct Hsk as [t Et]. rewrite Et in *. simpl app in *.
    rewrite parse_value_list, (skip_ws_head c _ Hws).
    destruct (Ascii.eqb_spec c "]"); [done|].
    rewrite Hel; [done|]. simpl in Hfuel. simpl. lia.
  - destruct d as [|[k v] d]; [reflexivity|].
    rewrite dumps_dict, map_cons. simpl app. rewrite <- app_assoc. simpl app.
    pose proof (parse_members_dumps k v d n rest IH) as Hel.
    assert (Hsk : ∃ t, join [","; " "]%char (member_text (k, v) :: map member_text d)
       = "034"%char :: t).
    { destruct d; [unfold join; simpl; eauto|].
      rewrite !map_cons, join_cons2. simpl. eauto. }
    destruct Hsk as [t Et]. rewrite Et in *. simpl app in *.
    rewrite parse_value_dict. simpl skip_ws. simpl Ascii.eqb. cbv iota.
    rewrite Hel; [done|]. simpl in Hfuel. simpl. lia.
Qed.

Lemma join_length_bound (sizes : list nat) (parts : list (list ascii)) :
  Forall2 (λ n p, (n ≤ length p)%nat) sizes parts →
  (list_sum (map S sizes) ≤ S (length (join [","; " "]%char parts)))%nat.
Proof.
  induction 1 as [|n p sizes parts Hn Hrest IH]; [simpl; lia|].
  destruct Hrest as [|n' p' sizes' parts' Hn' Hrest'].
  - unfold join. simpl. lia.
  - rewrite join_cons2. rewrite !length_app. simpl in *. lia.
Qed.

Lemma json_size_length v : (json_size v ≤ length (dumps v))%nat.
Proof.
  induction v as [ | b | z | f | s | l IH | d IH] using json_ind_nested.
  - simpl. lia.
  - destruct b; simpl; lia.
  - simpl. destruct (int_repr_shape z) as (c & r & -> & _). simpl. lia.
  - simpl. destruct (floatstr_cases f) as [[-> _]|[[-> _]|[[-> _]|[-> Hf]]]];
      [simpl; lia..|].
    pose proof (float_repr_nonempty f Hf). destruct (float_repr f); [done|simpl; lia].
  - simpl. lia.
  - rewrite dumps_list. simpl. rewrite length_app. simpl.
    pose proof (join_length_bound (map json_size l) (map dumps l)) as Hb.
    rewrite map_map in Hb. 
    assert (Forall2 (λ n p, (n ≤ length p)%nat) (map json_size l) (map dumps l)) as HF.
    { clear Hb. induction IH as [|x l Hx _ IHl]; simpl; constructor; [exact Hx|exact IHl]. }
    specialize (Hb HF). lia.
  - rewrite dumps_dict. simpl. rewrite length_app. simpl.
    pose proof (join_length_bound (map (λ kv, json_size (snd kv)) d) (map member_text d)) as Hb.
    rewrite map_map in Hb.
    assert (Forall2 (λ n p, (n ≤ length p)%nat)
              (map (λ kv, json_size (snd kv)) d) (map member_text d)) as HF.
    { clear Hb. induction IH as [|[k v] d Hv _ IHd]; simpl; constructor; [|done].
      unfold member_text. rewrite !length_app. simpl in *. lia. }
    specialize (Hb HF). lia.
Qed.

Lemma string_length_of_list (l : list ascii) :
  String.length (string_of_list_ascii l) = length l.
Proof. induction l; simpl; auto. Qed.

(** [json.loads] inverts [json.dumps]. *)
Lemma json_loads_dumps v : json_loads (json_dumps v) = Some v.
Proof.
  unfold json_loads, json_dumps.
  rewrite list_ascii_of_string_of_list_ascii, string_length_of_list.
  rewrite <- (app_nil_r (dumps v)) at 2.
  rewrite parse_value_dumps; [done| |done].
  pose proof (json_size_length v). lia.
Qed.

End CodecFacts.

Lemma int_repr_nonneg k :
  0 ≤ k → ∃ c r, int_repr k = c :: r ∧ is_digit c = true ∧ forallb is_digit r = true.
Proof.
  intros Hk. unfold int_repr. destruct k as [|p|p]; [| |lia]; simpl.
  - exists "0"%char, []. auto.
  - apply to_uint_string.
Qed.

Lemma forallb_app_true {A} (f : A → bool) l1 l2 :
  forallb f l1 = true → forallb f l2 = true → forallb f (l1 ++ l2) = true.
Proof. intros H1 H2. rewrite forallb_app. by rewrite H1, H2. Qed.

Lemma half_repr_nonempty n : half_repr n ≠ [].
Proof.
  unfold half_repr.
  destruct (int_repr_nonneg (Z.abs n / 2)) as (c & r & E & _);
    [apply Z.div_pos; lia|].
  rewrite E. by destruct (n <? 0).
Qed.

Lemma half_repr_chars n : forallb number_char (half_repr n) = true.
Proof.
  unfold half_repr.
  destruct (int_repr_nonneg (Z.abs n / 2)) as (c & r & E & Hc & Hr);
    [apply Z.div_pos; lia|].
  rewrite E. apply forallb_app_true; [by destruct (n <? 0)|].
  apply forallb_app_true; [|by destruct (Z.even n)].
  simpl. by rewrite (is_digit_number_char c Hc), (forallb_digits_number r Hr).
Qed.

Lemma half_repr_not_int n : all_digits_signed (half_repr n) = false.
Proof.
  unfold half_repr.
  destruct (int_repr_nonneg (Z.abs n / 2)) as (c & r & E & Hc & Hr);
    [apply Z.div_pos; lia|].
  rewrite E.
  assert (forallb is_digit
            (r ++ (if Z.even n then ["."; "0"]%char else ["."; "5"]%char)) = false) as Hf.
  { rewrite forallb_app. destruct (Z.even n); simpl; by rewrite andb_false_r. }
  destruct (n <? 0); simpl.
  + rewrite Hf. by rewrite andb_false_r.
  + rewrite Hf. by rewrite andb_false_r.
Qed.

Lemma half_of_repr_repr n : half_of_repr (half_repr n) = Some n.
Proof.
  unfold half_of_repr, half_repr.
  destruct (int_repr_nonneg (Z.abs n / 2)) as (c & r & E & Hc & Hr);
    [apply Z.div_pos; lia|].
  assert (Hnm : Ascii.eqb c "-" = false).
  { destruct (Ascii.eqb_spec c "-") as [->|]; done. }
  assert (Hrev : ∀ d, rev (int_repr (Z.abs n / 2) ++ ["."%char; d])
                      = d :: "."%char :: rev (int_repr (Z.abs n / 2))).
  { intros d. by rewrite rev_app_distr. }
  pose proof (Z.div_mod (Z.abs n) 2 ltac:(lia)) as Hdm.
  pose proof (Z.mod_pos_bound (Z.abs n) 2 ltac:(lia)) as Hmb.
  destruct (n <? 0) eqn:Hneg; simpl app.
  + simpl. destruct (Z.even n) eqn:Hev; rewrite Hrev; simpl;
      rewrite rev_involutive, int_of_literal_repr; simpl; f_equal.
    * apply Z.even_spec in Hev as [m ->]. apply Z.ltb_lt in Hneg. lia.
    * rewrite <- Z.negb_odd in Hev. apply negb_false_iff, Z.odd_spec in Hev as [m ->].
      apply Z.ltb_lt in Hneg. lia.
  + apply Z.ltb_ge in Hneg.
    set (sfx := if Z.even n then ["."; "0"]%char else ["."; "5"]%char).
    assert (Hb : match int_repr (Z.abs n / 2) ++ sfx with
                 | c0 :: r0 =>
                     if Ascii.eqb c0 "-" then (true, r0)
                     else (false, int_repr (Z.abs n / 2) ++ sfx)
                 | [] => (false, int_repr (Z.abs n / 2) ++ sfx)
                 end = (false, int_repr (Z.abs n / 2) ++ sfx)).
    { rewrite E at 1. simpl. by rewrite Hnm. }
    rewrite Hb. subst sfx.
    destruct (Z.even n) eqn:Hev; rewrite Hrev; simpl;
      rewrite rev_involutive, int_of_literal_repr; simpl; f_equal.
    * apply Z.even_spec in Hev as [m ->]. lia.
    * rewrite <- Z.negb_odd in Hev. apply negb_false_iff, Z.odd_spec in Hev as [m ->].
      lia.
Qed.

Lemma half_sum_ge0 xs a :
  half_ge0 a = true → Forall (λ x, half_ge0 x = true) xs →
  half_ge0 (fold_left half_add xs a) = true.
Proof.
  revert a. induction xs as [|x xs IH]; intros a Ha Hxs; [done|].
  apply Forall_cons in Hxs as [Hx Hxs]. simpl. apply IH; [|done].
  destruct a as [m| | |], x as [n| | |]; try done.
  simpl in *. apply Z.leb_le in Ha, Hx. apply Z.leb_le. lia.
Qed.

(** The half-unit doubles meet the laws. *)
Lemma half_float_laws : @Float64Laws half_float.
Proof.
  split; unfold float_finite, float_isnan; simpl.
  - intros [n| | |]; try done. intros _. apply half_repr_nonempty.
  - intros [n| | |]; try done. intros _. apply half_repr_chars.
  - intros [n| | |]; try done. intros _. apply half_repr_not_int.
  - intros [n| | |]; try done. intros _. simpl. by rewrite half_of_repr_repr.
  - intros [n| | |]; try done. simpl. by rewrite Z.eqb_refl.
  - by intros [n| | |].
  - by intros [n| | |].
  - done.
  - intros [n| | |]; try done. intros _. simpl. by rewrite Z.eqb_refl.
  - intros xs Hxs. by apply half_sum_ge0.
  - done.
  - intros [a| | |] [b| | |] [c| | |]; try done. simpl.
    intros Hab%Z.eqb_eq Hbc%Z.eqb_eq. apply Z.eqb_eq. lia.
  - done.
  - done.
  - done.
  - intros [a| | |] [b| | |]; try done. simpl. intros _ _ _. by rewrite Z.eqb_refl.
  - intros [a| | |] [b| | |]; try done. simpl. intros _. apply Z.eqb_eq. lia.
  - by intros [a| | |]; simpl; rewrite ?Z.eqb_refl.
  - by intros [a| | |] [b| | |].
Qed.

Section ModelFacts.
Context `{Float64Laws}.

Lemma StepType_of_value_value t : StepType_of_value (StepType_value t) = Some t.
Proof. by destruct t. Qed.

Lemma EpisodeStatus_of_value_value s : EpisodeStatus_of_value (EpisodeStatus_value s) = Some s.
Proof. by destruct s. Qed.

Lemma field_opt_str_dump o : field_opt_str (Some (json_opt_str o)) = Returned o.
Proof. by destruct o. Qed.

(** Validation gives back the step whose dump it reads, with the
    metadata as the dump has it. *)
Lemma validate_model_dump now s :
  EpisodeStep.valid s →
  EpisodeStep.validate now (EpisodeStep.model_dump s) = Returned (stored_step s).
Proof.
  destruct s as [idx ty air tool mdl prov ins outs tok cost dur ts err md].
  intros (Hidx & Htok & Hcost & Hdur). simpl in *.
  unfold EpisodeStep.validate, EpisodeStep.model_dump, kwarg. simpl.
  rewrite StepType_of_value_value, Hcost.
  apply Z.leb_le in Hidx, Htok, Hdur. rewrite Hidx, Htok, Hdur.
  by destruct air, tool, mdl, prov, ins, outs, err.
Qed.

(** [mode="json"] changes nothing in what it has made. *)
Lemma to_jsonable_idem v : to_jsonable (to_jsonable v) = to_jsonable v.
Proof.
  induction v as [ | b | z | f | s | l IH | d IH] using json_ind_nested; try done.
  - simpl. destruct (float_finite f) eqn:Hf; [|done]. simpl. by rewrite Hf.
  - simpl. f_equal. rewrite map_map. apply map_ext_Forall.
    eapply Forall_impl; [exact IH|]. by intros x Hx.
  - simpl. f_equal. rewrite map_map. apply map_ext_Forall.
    eapply Forall_impl; [exact IH|]. intros [k x] Hx. simpl in *. by rewrite Hx.
Qed.

Lemma jsonable_items_idem d : jsonable_items (jsonable_items d) = jsonable_items d.
Proof.
  unfold jsonable_items. rewrite map_map. apply map_ext. intros [k x]. simpl.
  by rewrite to_jsonable_idem.
Qed.

Lemma model_dump_stored_step s :
  EpisodeStep.model_dump (stored_step s) = EpisodeStep.model_dump s.
Proof. unfold EpisodeStep.model_dump. simpl. by rewrite jsonable_items_idem. Qed.

Lemma stored_step_valid s : EpisodeStep.valid s → EpisodeStep.valid (stored_step s).
Proof. done. Qed.

Lemma stored_step_plain steps : plain_metadata (stored_step <$> steps).
Proof.
  apply Forall_fmap, Forall_forall. intros s _. simpl. apply jsonable_items_idem.
Qed.

Lemma stored_step_id steps : plain_metadata steps → stored_step <$> steps = steps.
Proof.
  induction 1 as [|s steps Hs _ IH]; [done|]. rewrite fmap_cons, IH. f_equal.
  destruct s. unfold stored_step. simpl in *. by rewrite Hs.
Qed.

Lemma traverse_map_returned {A B C} (f : B → outcome C) (g : A → B) (h : A → C) xs :
  Forall (λ x, f (g x) = Returned (h x)) xs →
  traverse f (map g xs) = Returned (map h xs).
Proof.
  induction 1 as [|x xs Hx _ IH]; [done|].
  simpl. by rewrite Hx, IH.
Qed.

Lemma field_str_list_dump l : field_str_list (JList (map JStr l)) = Returned l.
Proof.
  unfold field_str_list.
  rewrite (traverse_map_returned _ JStr id); [by rewrite map_id|].
  by apply Forall_forall.
Qed.

Lemma sum_spec_total xs : sum xs = spec_total xs.
Proof.
  unfold sum, spec_total.
  assert (∀ a, fold_left Z.add xs a = a + foldr Z.add 0 xs) as Hgen.
  { induction xs as [|x xs IH]; intros a; simpl; [lia|]. rewrite IH. lia. }
  by rewrite Hgen.
Qed.

Lemma spec_total_nonneg xs : Forall (λ x, 0 ≤ x) xs → 0 ≤ spec_total xs.
Proof. induction 1; simpl; lia. Qed.

(** The loop that collects the tools keeps, in [seen], the set of the
    names in [tools], and appends the first occurrences of the rest. *)
Lemma add_tool_loop steps seen tools :
  (∀ name, name ∈ seen ↔ name ∈ tools) →
  snd (fold_left Episode.add_tool steps (seen, tools))
  = tools ++ filter (λ name, name ∉ tools) (dedup_first (named_tools steps)).
Proof.
  revert seen tools. induction steps as [|s steps IH]; intros seen tools Hseen.
  - simpl. by rewrite app_nil_r.
  - simpl. unfold named_tools. simpl.
    destruct (EpisodeStep.tool_name s) as [name|] eqn:Hname; simpl; [|by apply IH].
    destruct (String.eqb_spec name EmptyString) as [->|Hne]; simpl.
    { rewrite filter_cons_False by (intros Hn; by apply Hn). by apply IH. }
    rewrite filter_cons_True by done. simpl.
    fold (named_tools steps).
    destruct (decide (name ∈ seen)) as [Hin|Hin].
    + rewrite bool_decide_eq_false_2 by (intros Hn; by apply Hn).
      assert (name ∈ tools) as Hin' by (by apply Hseen).
      rewrite filter_cons_False by (intros Hn; by apply Hn).
      rewrite IH by done. f_equal.
      rewrite list_filter_filter. apply list_filter_iff. intros y.
      split; [|tauto]. intros Hy. split; [done|]. by intros ->.
    + rewrite bool_decide_eq_true_2 by done.
      assert (name ∉ tools) as Hin' by (by rewrite <- Hseen).
      rewrite filter_cons_True by done.
      rewrite IH.
      * rewrite <- app_assoc. simpl. f_equal. f_equal.
        rewrite list_filter_filter. apply list_filter_iff. intros y.
        rewrite elem_of_app, list_elem_of_singleton. tauto.
      * intros y. rewrite elem_of_union, elem_of_singleton, elem_of_app,
          list_elem_of_singleton, Hseen. tauto.
Qed.

Lemma compute_aggregates_tools e :
  Episode.tools_used (Episode.compute_aggregates e)
  = dedup_first (named_tools (Episode.steps e)).
Proof.
  simpl. rewrite (add_tool_loop _ ∅ []).
  - simpl. generalize (dedup_first (named_tools (Episode.steps e))).
    induction l as [|x l IH]; [done|].
    rewrite filter_cons_True by apply not_elem_of_nil. by rewrite IH.
  - intros name. split; [by intros ?%not_elem_of_empty|by intros ?%not_elem_of_nil].
Qed.

End ModelFacts.
#[local] Arguments field_str_list : simpl never.
#[local] Arguments Episode.init : simpl never.

Section StoreFacts.
Context `{Float64Laws}.

Lemma aggregates_ge0 e :
  Forall EpisodeStep.valid (Episode.steps e) →
  let a := Episode.compute_aggregates e in
  0 ≤ Episode.total_tokens a ∧ float_ge0 (Episode.total_cost_usd a) = true
  ∧ 0 ≤ Episode.total_duration_ms a ∧ 0 ≤ Episode.step_count a.
Proof.
  intros Hsteps. simpl. rewrite !sum_spec_total. repeat split.
  - apply spec_total_nonneg, Forall_fmap. eapply Forall_impl; [done|]. by intros s (? & ? & ? & ?).
  - apply float_ge0_round6, float_ge0_sum, Forall_fmap.
    eapply Forall_impl; [done|]. by intros s (? & ? & ? & ?).
  - apply spec_total_nonneg, Forall_fmap. eapply Forall_impl; [done|]. by intros s (? & ? & ? & ?).
  - lia.
Qed.

(** Reading back the row of an episode whose aggregates are computed
    gives the episode, with the metadata of the steps as the row has it. *)
Lemma row_to_episode_persisted now e :
  Episode.agent_id e ≠ EmptyString → Forall EpisodeStep.valid (Episode.steps e) →
  Episode.compute_aggregates e = e →
  EpisodeStore._row_to_episode now (EpisodeStore.row_of_episode e)
  = Returned (persisted e).
Proof.
  intros Hagent Hsteps Hagg.
  pose proof (aggregates_ge0 e Hsteps) as Hge. rewrite Hagg in Hge.
  destruct Hge as (Htok & Hcost & Hdur & Hcount).
  unfold EpisodeStore._row_to_episode, EpisodeStore.row_of_episode. simpl.
  rewrite !json_loads_dumps. simpl.
  rewrite (traverse_map_returned _ (λ s, JDict (EpisodeStep.model_dump s)) stored_step).
  2:{ eapply Forall_impl; [exact Hsteps|]. intros s Hs. by apply validate_model_dump. }
  simpl. rewrite EpisodeStatus_of_value_value. simpl.
  rewrite field_str_list_dump. simpl.
  unfold Episode.init.
  destruct (String.eqb_spec (Episode.agent_id e) EmptyString) as [?|_]; [done|].
  apply Z.leb_le in Htok, Hdur, Hcount. by rewrite Htok, Hcost, Hdur, Hcount.
Qed.

Lemma persisted_saved e : saved_episode e → persisted e = e.
Proof.
  intros (_ & _ & Hplain & _). unfold persisted. rewrite (stored_step_id _ Hplain).
  by destruct e.
Qed.

Lemma row_of_episode_persisted e :
  EpisodeStore.row_of_episode (persisted e) = EpisodeStore.row_of_episode e.
Proof.
  unfold EpisodeStore.row_of_episode. simpl. rewrite <- list_fmap_compose.
  do 2 f_equal. f_equal. apply list_fmap_ext. intros i s _. simpl.
  by rewrite model_dump_stored_step.
Qed.

Lemma compute_aggregates_persisted e :
  Episode.compute_aggregates (persisted e) = persisted (Episode.compute_aggregates e).
Proof.
  unfold Episode.compute_aggregates, persisted. simpl.
  rewrite length_fmap, <- !list_fmap_compose.
  assert (fold_left Episode.add_tool (stored_step <$> Episode.steps e) (∅, [])
          = fold_left Episode.add_tool (Episode.steps e) (∅, [])) as ->; [|done].
  generalize (∅ : gset string, @nil string).
  induction (Episode.steps e) as [|s steps IH]; intros acc; [done|]. simpl. apply IH.
Qed.

(** What the row gives back is a saved episode. *)
Lemma saved_persisted e :
  Episode.agent_id e ≠ EmptyString → Forall EpisodeStep.valid (Episode.steps e) →
  Episode.compute_aggregates e = e → saved_episode (persisted e).
Proof.
  intros Hagent Hsteps Hagg. split_and!; [done| | |].
  - simpl. apply Forall_fmap. eapply Forall_impl; [exact Hsteps|]. done.
  - apply stored_step_plain.
  - by rewrite compute_aggregates_persisted, Hagg.
Qed.

(** Reading back the row of a saved episode gives the episode. *)
Lemma row_to_episode_saved now e :
  saved_episode e →
  EpisodeStore._row_to_episode now (EpisodeStore.row_of_episode e) = Returned e.
Proof.
  intros Hsaved. pose proof Hsaved as (Hagent & Hsteps & _ & Hagg).
  rewrite row_to_episode_persisted by done. by rewrite persisted_saved.
Qed.

Lemma row_to_summary_saved e :
  saved_episode e →
  EpisodeStore._row_to_summary (EpisodeStore.row_of_episode e)
  = Returned (EpisodeSummary.of_episode e).
Proof.
  intros _. unfold EpisodeStore._row_to_summary, EpisodeStore.row_of_episode. simpl.
  rewrite json_loads_dumps. simpl. rewrite EpisodeStatus_of_value_value. simpl.
  by rewrite field_str_list_dump.
Qed.

Lemma find_row es id :
  find (λ r, String.eqb (Row.episode_id r) id) (map EpisodeStore.row_of_episode es)
  = EpisodeStore.row_of_episode <$> find (λ e, String.eqb (Episode.episode_id e) id) es.
Proof.
  induction es as [|e es IH]; [done|]. simpl.
  by destruct (String.eqb (Episode.episode_id e) id).
Qed.

Lemma find_episode_None es id :
  id ∉ map Episode.episode_id es →
  find (λ e, String.eqb (Episode.episode_id e) id) es = None.
Proof.
  induction es as [|e es IH]; [done|]. simpl. intros Hid.
  apply not_elem_of_cons in Hid as [Hne Hid].
  destruct (String.eqb_spec (Episode.episode_id e) id) as [E|_]; [by destruct Hne|].
  by apply IH.
Qed.

Lemma find_episode_Some es e :
  NoDup (map Episode.episode_id es) → e ∈ es →
  find (λ x, String.eqb (Episode.episode_id x) (Episode.episode_id e)) es = Some e.
Proof.
  induction es as [|x es IH]; intros Hnd Hin; [by apply elem_of_nil in Hin|].
  simpl in *. apply NoDup_cons in Hnd as [Hx Hnd].
  destruct (String.eqb_spec (Episode.episode_id x) (Episode.episode_id e)) as [E|Hne].
  - apply elem_of_cons in Hin as [->|Hin]; [done|].
    destruct Hx. rewrite E. by apply list_elem_of_fmap_2.
  - apply elem_of_cons in Hin as [->|Hin]; [done|]. by apply IH.
Qed.

Lemma find_episode_elem es id e :
  find (λ x, String.eqb (Episode.episode_id x) id) es = Some e →
  e ∈ es ∧ Episode.episode_id e = id.
Proof.
  induction es as [|x es IH]; [done|]. simpl.
  destruct (String.eqb_spec (Episode.episode_id x) id) as [E|Hne].
  - intros [= ->]. split; [left|done].
  - intros [? ?]%IH. split; [by right|done].
Qed.

(** [init] on a new database file gives a store that holds no episode. *)
Lemma init_holds self : holds (EpisodeStore.init self []) [].
Proof. split_and!; [done|constructor|constructor]. Qed.

(** On a store that holds [es], [get] is the lookup by identifier. *)
Lemma get_holds store es now id :
  holds store es →
  EpisodeStore.get store now id
  = Returned (find (λ e, String.eqb (Episode.episode_id e) id) es).
Proof.
  intros (Hdb & Hsaved & Hnd). unfold EpisodeStore.get. rewrite Hdb, find_row.
  destruct (find _ es) as [e|] eqn:Hfind; [|done]. simpl.
  apply find_episode_elem in Hfind as [Hin _].
  rewrite row_to_episode_saved; [done|].
  by eapply Forall_forall in Hsaved.
Qed.

Lemma compute_aggregates_idem e :
  Episode.compute_aggregates (Episode.compute_aggregates e) = Episode.compute_aggregates e.
Proof. reflexivity. Qed.

Lemma existsb_row_id es id :
  id ∉ map Episode.episode_id es →
  existsb (λ r, String.eqb (Row.episode_id r) id) (map EpisodeStore.row_of_episode es) = false.
Proof.
  induction es as [|e es IH]; [done|]. simpl. intros Hid.
  apply not_elem_of_cons in Hid as [Hne Hid].
  destruct (String.eqb_spec (Episode.episode_id e) id) as [E|_]; [by destruct Hne|].
  by apply IH.
Qed.

(** The range check of [save] is the one on the sums of the steps. *)
Lemma save_range_check e :
  let row := EpisodeStore.row_of_episode (Episode.compute_aggregates e) in
  EpisodeStore.sqlite_int (Row.total_tokens row)
  && EpisodeStore.sqlite_int (Row.total_duration_ms row)
  && EpisodeStore.sqlite_int (Row.step_count row)
  = sqlite_fits (Episode.steps e).
Proof. simpl. unfold sqlite_fits. by rewrite !sum_spec_total. Qed.

(** [save] appends the episode with its aggregates computed, when the
    integers of the row fit. *)
Lemma save_holds store es e :
  holds store es →
  Episode.agent_id e ≠ EmptyString → Forall EpisodeStep.valid (Episode.steps e) →
  Episode.episode_id e ∉ map Episode.episode_id es →
  sqlite_fits (Episode.steps e) = true →
  ∃ store',
    EpisodeStore.save store e = Returned (Episode.compute_aggregates e, store')
    ∧ holds store' (es ++ [persisted (Episode.compute_aggregates e)]).
Proof.
  intros (Hdb & Hsaved & Hnd) Hagent Hsteps Hfresh Hfits.
  unfold EpisodeStore.save. rewrite Hdb. cbv zeta.
  rewrite save_range_check, Hfits.
  destruct (aggregates_ge0 e Hsteps) as (_ & Hcost%float_ge0_number & _).
  change (Row.total_cost_usd (EpisodeStore.row_of_episode (Episode.compute_aggregates e)))
    with (Episode.total_cost_usd (Episode.compute_aggregates e)).
  rewrite Hcost. cbn [negb].
  rewrite existsb_row_id by done.
  eexists. split; [done|]. split; [|split].
  - cbn [EpisodeStore._db]. rewrite map_app. cbn [map]. by rewrite row_of_episode_persisted.
  - apply Forall_app. split; [done|]. constructor; [|done]. by apply saved_persisted.
  - rewrite map_app. simpl. apply NoDup_app. split; [done|]. split.
    + intros x Hx ->%list_elem_of_singleton. done.
    + apply NoDup_singleton.
Qed.

(** [save] raises, and writes nothing, when an integer does not fit. *)
Lemma save_overflow store rows e :
  EpisodeStore._db store = Some rows → sqlite_fits (Episode.steps e) = false →
  EpisodeStore.save store e = Raised OverflowError.
Proof.
  intros Hdb Hfits. unfold EpisodeStore.save. rewrite Hdb. cbv zeta.
  by rewrite save_range_check, Hfits.
Qed.

Lemma create_holds store es now uuid p :
  holds store es → EpisodeCreate.valid p → uuid ∉ map Episode.episode_id es →
  sqlite_fits (EpisodeCreate.steps p) = true →
  ∃ store',
    EpisodeStore.create store now uuid p = Returned (created now uuid p, store')
    ∧ holds store' (es ++ [persisted (created now uuid p)]).
Proof.
  intros Hholds (Hagent & Hsteps) Hfresh Hfits. unfold EpisodeStore.create, Episode.init.
  destruct (String.eqb_spec (EpisodeCreate.agent_id p) EmptyString) as [?|_]; [done|].
  rewrite float_ge0_zero. simpl.
  by apply save_holds.
Qed.

Lemma create_overflow store es now uuid p :
  holds store es → EpisodeCreate.valid p →
  sqlite_fits (EpisodeCreate.steps p) = false →
  EpisodeStore.create store now uuid p = Raised OverflowError.
Proof.
  intros (Hdb & _) (Hagent & Hsteps) Hfits. unfold EpisodeStore.create, Episode.init.
  destruct (String.eqb_spec (EpisodeCreate.agent_id p) EmptyString) as [?|_]; [done|].
  rewrite float_ge0_zero. simpl.
  by eapply save_overflow.
Qed.

End StoreFacts.
Lemma string_compare_trans_le a b c :
  String.compare a b ≠ Gt → String.compare b c ≠ Gt → String.compare a c ≠ Gt.
Proof.
  revert b c. induction a as [|x a IH]; intros [|y b] [|z c]; simpl; try done.
  unfold Ascii.compare.
  destruct (N.compare_spec (N_of_ascii x) (N_of_ascii y)) as [Exy|Lxy|Gxy]; [| |done];
    destruct (N.compare_spec (N_of_ascii y) (N_of_ascii z)) as [Eyz|Lyz|Gyz]; try done;
    intros Hab Hbc.
  - rewrite Exy, Eyz, N.compare_refl. by eapply IH.
  - rewrite Exy. by rewrite (proj2 (N.compare_lt_iff _ _) Lyz).
  - rewrite <- Eyz. by rewrite (proj2 (N.compare_lt_iff _ _) Lxy).
  - by rewrite (proj2 (N.compare_lt_iff _ _) (N.lt_trans _ _ _ Lxy Lyz)).
Qed.

Lemma text_le_trans a b c : text_le a b = true → text_le b c = true → text_le a c = true.
Proof.
  unfold text_le, String.leb. intros Hab Hbc.
  pose proof (string_compare_trans_le a b c) as Ht.
  destruct (String.compare a b), (String.compare b c), (String.compare a c);
    try done; by (exfalso; apply Ht).
Qed.

Lemma text_le_total a b : text_le a b = true ∨ text_le b a = true.
Proof. apply String.leb_total. Qed.

Section Newest.
Context {A : Type} (key : A → string).

Lemma insert_newest_perm x l : insert_newest key x l ≡ₚ x :: l.
Proof.
  induction l as [|y l IH]; [done|]. simpl.
  destruct (text_le (key y) (key x)); [done|]. by rewrite IH, Permutation_swap.
Qed.

Lemma newest_first_perm l : newest_first key l ≡ₚ l.
Proof.
  induction l as [|x l IH]; [done|]. simpl.
  by rewrite insert_newest_perm, IH.
Qed.

Lemma insert_newest_sorted x l :
  StronglySorted (newer_first key) l → StronglySorted (newer_first key) (insert_newest key x l).
Proof.
  induction 1 as [|y l Hl IH Hy]; simpl; [repeat constructor|].
  destruct (text_le (key y) (key x)) eqn:Hyx.
  - constructor; [by constructor|]. constructor; [done|].
    eapply Forall_impl; [exact Hy|]. intros z Hz. unfold newer_first in *.
    by eapply text_le_trans.
  - constructor; [done|].
    rewrite insert_newest_perm. constructor; [|done].
    unfold newer_first. by destruct (text_le_total (key x) (key y)) as [?|?]; [|congruence].
Qed.

Lemma newest_first_sorted l : StronglySorted (newer_first key) (newest_first key l).
Proof.
  induction l as [|x l IH]; [constructor|]. simpl. by apply insert_newest_sorted.
Qed.

End Newest.

(** Both engines order by [started_at], newest first. *)
Lemma sorter_engine_laws `{Float64} : @SqlEngineLaws _ sorter_engine.
Proof.
  split; simpl; intros _ _ rows.
  - apply newest_first_perm.
  - apply newest_first_sorted.
Qed.

Lemma index_engine_laws `{Float64} : @SqlEngineLaws _ index_engine.
Proof.
  split; simpl; intros _ _ rows.
  - rewrite newest_first_perm. symmetry. apply Permutation_rev.
  - apply newest_first_sorted.
Qed.
Lemma dedup_first_elem xs x : x ∈ dedup_first xs ↔ x ∈ xs.
Proof.
  induction xs as [|y xs IH]; [done|]. simpl.
  rewrite !elem_of_cons, list_elem_of_filter, IH.
  destruct (decide (x = y)); tauto.
Qed.

Lemma dedup_first_NoDup xs : NoDup (dedup_first xs).
Proof.
  induction xs as [|y xs IH]; simpl; [constructor|].
  apply NoDup_cons. split.
  - rewrite list_elem_of_filter. tauto.
  - by apply NoDup_filter.
Qed.

Lemma named_tools_elem `{Float64} steps name :
  name ∈ named_tools steps
  ↔ name ≠ EmptyString ∧ ∃ s, s ∈ steps ∧ EpisodeStep.tool_name s = Some name.
Proof. unfold named_tools. by rewrite list_elem_of_filter, list_elem_of_omap. Qed.

Section DiffFacts.
Context `{Float64}.

Lemma field_mismatches_elem i ls rs d :
  d ∈ field_mismatches i ls rs
  ↔ ∃ field, field ∈ EpisodeStore.compare_fields
      ∧ EpisodeStep.getattr_str ls field ≠ EpisodeStep.getattr_str rs field
      ∧ d = StepDiff.mk (Z.of_nat i) field (Some (EpisodeStep.getattr_str ls field))
              (Some (EpisodeStep.getattr_str rs field)).
Proof.
  unfold field_mismatches. rewrite list_elem_of_omap. split.
  - intros (field & Hin & Hd). exists field. case_decide; [done|]. by injection Hd as <-.
  - intros (field & Hin & Hne & ->). exists field. split; [done|]. by case_decide.
Qed.

Lemma field_mismatches_nonempty i ls rs :
  field_mismatches i ls rs ≠ [] ↔ steps_differ ls rs.
Proof.
  unfold steps_differ. rewrite Exists_exists. split.
  - intros Hne. destruct (field_mismatches i ls rs) as [|d l] eqn:E; [done|].
    assert (d ∈ field_mismatches i ls rs) as Hd by (rewrite E; left).
    apply field_mismatches_elem in Hd as (field & ? & ? & _). by exists field.
  - intros (field & Hin & Hne) E.
    assert (StepDiff.mk (Z.of_nat i) field (Some (EpisodeStep.getattr_str ls field))
              (Some (EpisodeStep.getattr_str rs field)) ∈ field_mismatches i ls rs) as Hd.
    { apply field_mismatches_elem. by exists field. }
    rewrite E in Hd. by apply elem_of_nil in Hd.
Qed.

(** The loop over the compared fields appends the mismatches and flags
    the position when there is one. *)
Lemma diff_fields_spec i ls rs :
  EpisodeStore.diff_fields i ls rs
  = (field_mismatches i ls rs, bool_decide (field_mismatches i ls rs ≠ [])).
Proof.
  unfold EpisodeStore.diff_fields, field_mismatches.
  assert (∀ fields acc b,
    fold_left
      (λ acc field,
         let lv := EpisodeStep.getattr_str ls field in
         let rv := EpisodeStep.getattr_str rs field in
         if negb (String.eqb lv rv)
         then (fst acc ++ [StepDiff.mk (Z.of_nat i) field (Some lv) (Some rv)], true)
         else acc) fields (acc, b)
    = (acc ++ omap (λ field,
                      let lv := EpisodeStep.getattr_str ls field in
                      let rv := EpisodeStep.getattr_str rs field in
                      if decide (lv = rv) then None
                      else Some (StepDiff.mk (Z.of_nat i) field (Some lv) (Some rv))) fields,
       b || bool_decide (omap (λ field,
                      let lv := EpisodeStep.getattr_str ls field in
                      let rv := EpisodeStep.getattr_str rs field in
                      if decide (lv = rv) then None
                      else Some (StepDiff.mk (Z.of_nat i) field (Some lv) (Some rv))) fields
                         ≠ []))) as Hgen.
  { induction fields as [|f fields IH]; intros acc b; simpl.
    - by rewrite app_nil_r, orb_false_r.
    - destruct (String.eqb_spec (EpisodeStep.getattr_str ls f) (EpisodeStep.getattr_str rs f))
        as [E|Hne]; simpl.
      + rewrite IH. by rewrite decide_True by done.
      + rewrite IH. rewrite decide_False by done. simpl.
        rewrite <- app_assoc. simpl. f_equal.
        by rewrite orb_true_r. }
  by rewrite Hgen.
Qed.

Lemma positional_diffs_snoc ls rs l r :
  length ls = length rs →
  positional_diffs (ls ++ [l]) (rs ++ [r])
  = positional_diffs ls rs ++ field_mismatches (length ls) l r.
Proof.
  intros Hlen. unfold positional_diffs.
  rewrite zip_with_app by done. rewrite imap_app, concat_app. simpl.
  rewrite app_nil_r, length_zip_with_l_eq by done. by rewrite Nat.add_0_r.
Qed.

(** After [n] turns the loop has compared the first [n] positions. *)
Lemma diff_loop ls rs n :
  (n ≤ length ls)%nat → (n ≤ length rs)%nat →
  fold_left (EpisodeStore.diff_turn ls rs) (seq 0 n) ([], 0, 0)
  = diff_state (take n ls) (take n rs).
Proof.
  induction n as [|n IH]; intros Hl Hr.
  - by rewrite !take_0.
  - rewrite seq_S, fold_left_app, IH by lia. simpl.
    destruct (lookup_lt_is_Some_2 ls n ltac:(lia)) as [l Hlk].
    destruct (lookup_lt_is_Some_2 rs n ltac:(lia)) as [r Hrk].
    unfold EpisodeStore.diff_turn, diff_state. rewrite Hlk, Hrk, diff_fields_spec.
    rewrite (take_S_r ls n l Hlk), (take_S_r rs n r Hrk).
    assert (length (take n ls) = length (take n rs)) as Hlen
      by (rewrite !length_take; lia).
    rewrite positional_diffs_snoc by done.
    rewrite length_take, Nat.min_l by lia.
    rewrite zip_with_app by done. rewrite !filter_app, !length_app. simpl.
    destruct (decide (steps_differ l r)) as [Hd|Hd].
    + rewrite bool_decide_eq_true_2 by (by apply field_mismatches_nonempty).
      rewrite (filter_cons_True (λ p, steps_differ p.1 p.2)) by done.
      rewrite (filter_cons_False (λ p, ¬ steps_differ p.1 p.2)) by (simpl; tauto).
      simpl. f_equal; [f_equal|]; lia.
    + rewrite bool_decide_eq_false_2 by (by rewrite field_mismatches_nonempty).
      rewrite (filter_cons_False (λ p, steps_differ p.1 p.2)) by done.
      rewrite (filter_cons_True (λ p, ¬ steps_differ p.1 p.2)) by done.
      simpl. f_equal; [f_equal|]; lia.
Qed.

Lemma zip_take_min {A B} (l : list A) (k : list B) :
  zip (take (min (length l) (length k)) l) (take (min (length l) (length k)) k) = zip l k.
Proof.
  revert k. induction l as [|x l IH]; intros [|y k]; simpl; try done.
  by rewrite IH.
Qed.

Lemma diff_state_take_min ls rs :
  diff_state (take (min (length ls) (length rs)) ls) (take (min (length ls) (length rs)) rs)
  = diff_state ls rs.
Proof. unfold diff_state, positional_diffs. by rewrite zip_take_min. Qed.

End DiffFacts.
Section PositionalFacts.
Context `{Float64}.

Lemma positional_from_cons k l ls r rs :
  positional_from k (l :: ls) (r :: rs)
  = field_mismatches k l r ++ positional_from (S k) ls rs.
Proof.
  unfold positional_from. simpl. rewrite Nat.add_0_r. f_equal. f_equal.
  apply imap_ext. intros i p _. simpl. f_equal. lia.
Qed.

Lemma positional_from_elem k ls rs d :
  d ∈ positional_from k ls rs
  ↔ ∃ i l r field,
      ls !! i = Some l ∧ rs !! i = Some r
      ∧ field ∈ EpisodeStore.compare_fields
      ∧ EpisodeStep.getattr_str l field ≠ EpisodeStep.getattr_str r field
      ∧ d = StepDiff.mk (Z.of_nat (k + i)) field (Some (EpisodeStep.getattr_str l field))
              (Some (EpisodeStep.getattr_str r field)).
Proof.
  revert k rs. induction ls as [|l ls IH]; intros k [|r rs].
  - split; [by intros ?%elem_of_nil|]. by intros (i & ? & ? & ? & ? & _).
  - split; [by intros ?%elem_of_nil|]. by intros (i & ? & ? & ? & ? & _).
  - split; [by intros ?%elem_of_nil|]. by intros (i & ? & ? & ? & _ & ? & _).
  - rewrite positional_from_cons, elem_of_app, field_mismatches_elem, IH. split.
    + intros [(field & Hin & Hne & ->)|(i & l' & r' & field & Hl & Hr & Hin & Hne & ->)].
      * exists 0%nat, l, r, field. by rewrite Nat.add_0_r.
      * exists (S i), l', r', field. split_and!; try done. do 2 f_equal. lia.
    + intros ([|i] & l' & r' & field & Hl & Hr & Hin & Hne & ->); simpl in *.
      * left. injection Hl as ->. injection Hr as ->. exists field.
        by rewrite Nat.add_0_r.
      * right. exists i, l', r', field. split_and!; try done. do 2 f_equal. lia.
Qed.

Lemma compare_fields_NoDup : NoDup EpisodeStore.compare_fields.
Proof.
  unfold EpisodeStore.compare_fields.
  repeat (apply NoDup_cons_2;
          [rewrite ?not_elem_of_cons; split_and?; (done || apply not_elem_of_nil)|]).
  apply NoDup_nil_2.
Qed.

Lemma field_mismatches_NoDup i l r : NoDup (field_mismatches i l r).
Proof.
  unfold field_mismatches. generalize compare_fields_NoDup.
  generalize EpisodeStore.compare_fields.
  induction 1 as [|f fields Hf Hnd IH]; simpl; [constructor|].
  case_decide; [done|]. apply NoDup_cons. split; [|done].
  rewrite list_elem_of_omap. intros (f' & Hin & Heq).
  case_decide; [done|]. injection Heq as <-. done.
Qed.

Lemma positional_from_NoDup k ls rs : NoDup (positional_from k ls rs).
Proof.
  revert k rs. induction ls as [|l ls IH]; intros k [|r rs]; try constructor.
  rewrite positional_from_cons. apply NoDup_app. split_and!.
  - apply field_mismatches_NoDup.
  - intros d (f & _ & _ & ->)%field_mismatches_elem
             (i & ? & ? & ? & _ & _ & _ & _ & [= Hidx _])%positional_from_elem.
    lia.
  - apply IH.
Qed.

Lemma positional_diffs_from ls rs : positional_diffs ls rs = positional_from 0 ls rs.
Proof. reflexivity. Qed.

Lemma field_mismatches_swap i l r :
  field_mismatches i r l = swap_sides <$> field_mismatches i l r.
Proof.
  unfold field_mismatches. generalize EpisodeStore.compare_fields.
  induction l0 as [|f fields IH]; [done|]. simpl.
  do 2 case_decide; try congruence; simpl; [exact IH|f_equal; exact IH].
Qed.

Lemma positional_from_swap k ls rs :
  positional_from k rs ls = swap_sides <$> positional_from k ls rs.
Proof.
  revert k rs. induction ls as [|l ls IH]; intros k [|r rs]; try done.
  rewrite !positional_from_cons, fmap_app, field_mismatches_swap. by rewrite IH.
Qed.

Lemma diff_returns store now left_id right_id l r :
  EpisodeStore.get store now left_id = Returned (Some l) →
  EpisodeStore.get store now right_id = Returned (Some r) →
  EpisodeStore.diff store now left_id right_id
  = Returned (Some
      (let '(step_diffs, matching, differing) :=
         diff_state (Episode.steps l) (Episode.steps r) in
       let left_count := Z.of_nat (length (Episode.steps l)) in
       let right_count := Z.of_nat (length (Episode.steps r)) in
       EpisodeDiff.mk _ left_id right_id left_count right_count matching differing
         (Z.max 0 (left_count - right_count)) (Z.max 0 (right_count - left_count))
         (Episode.total_tokens r - Episode.total_tokens l)
         (float_round6 (float_sub (Episode.total_cost_usd r) (Episode.total_cost_usd l)))
         (Episode.total_duration_ms r - Episode.total_duration_ms l)
         step_diffs)).
Proof.
  intros Hl Hr. unfold EpisodeStore.diff. rewrite Hl, Hr. simpl.
  rewrite diff_loop by lia. by rewrite diff_state_take_min.
Qed.

End PositionalFacts.

Lemma bind_Returned {A B} (m : outcome A) (f : A → outcome B) b :
  m ≫= f = Returned b → ∃ a, m = Returned a ∧ f a = Returned b.
Proof. destruct m as [a|e]; [by exists a|done]. Qed.

Lemma init_Returned `{Float64} episode_id agent_id status steps tools_used total_tokens
    total_cost_usd total_duration_ms step_count started_at ended_at metadata e :
  Episode.init episode_id agent_id status steps tools_used total_tokens total_cost_usd
    total_duration_ms step_count started_at ended_at metadata = Returned e →
  e = Episode.mk _ episode_id agent_id status steps tools_used total_tokens total_cost_usd
        total_duration_ms step_count started_at ended_at metadata
  ∧ agent_id ≠ EmptyString ∧ 0 ≤ total_tokens ∧ float_ge0 total_cost_usd = true
  ∧ 0 ≤ total_duration_ms ∧ 0 ≤ step_count.
Proof.
  unfold Episode.init.
  destruct (String.eqb_spec agent_id EmptyString) as [|Hagent]; [done|].
  destruct (_ && _) eqn:Hge; simpl; [|done]. intros [= <-].
  rewrite !andb_true_iff, !Z.leb_le in Hge. naive_solver.
Qed.

(** The total cost of an episode that [get] returns passed the check
    [ge=0] of the class. *)
Lemma get_cost_ge0 `{Float64} store now id e :
  EpisodeStore.get store now id = Returned (Some e) →
  float_ge0 (Episode.total_cost_usd e) = true.
Proof.
  unfold EpisodeStore.get. destruct (EpisodeStore._db store) as [rows|]; [|done].
  destruct (find _ rows) as [row|]; [|done].
  intros (e' & He & [= <-])%bind_Returned. unfold EpisodeStore._row_to_episode in He.
  repeat match type of He with
         | _ ≫= _ = Returned _ =>
             let x := fresh "x" in let Hx := fresh "Hx" in
             apply bind_Returned in He as (x & Hx & He)
         end.
  by apply init_Returned in He as (-> & _ & _ & Hcost & _).
Qed.

(** Rounded differences taken in the two orders are negations of each
    other, unless both terms are infinite. *)
Lemma round6_sub_neg `{Float64Laws} a b :
  float_ge0 a = true → float_ge0 b = true →
  float_eqb a float_inf && float_eqb b float_inf = false →
  float_eqb (float_round6 (float_sub a b)) (float_neg (float_round6 (float_sub b a)))
  = true.
Proof.
  intros Ha Hb Hinf.
  eapply float_eqb_trans.
  - apply float_round6_eqb, float_sub_neg. by apply float_sub_number.
  - apply float_round6_neg, float_sub_number; [done|done|]. by rewrite andb_comm.
Qed.

(** The rounded difference of two infinite terms equals nothing. *)
Lemma round6_sub_inf `{Float64Laws} a b x :
  float_eqb a float_inf && float_eqb b float_inf = true →
  float_eqb (float_round6 (float_sub a b)) x = false.
Proof.
  intros [->%float_eqb_inf ->%float_eqb_inf]%andb_prop.
  rewrite float_sub_inf, float_round6_nan. apply float_eqb_nan.
Qed.

Section SelectFacts.
Context `{Float64Laws}.

(** Without conditions every row is selected. *)
Lemma sql_where_nil (rows : list Row.t) : sql_where [] [] rows = rows.
Proof.
  unfold sql_where. induction rows as [|row rows IH]; [done|].
  rewrite filter_cons_True by done. by rewrite IH.
Qed.

Lemma sql_where_rows where_clauses params es :
  sql_where where_clauses params (map EpisodeStore.row_of_episode es)
  = map EpisodeStore.row_of_episode
      (filter (λ e, forallb (λ cp, eval_clause (fst cp) (snd cp)
                                     (EpisodeStore.row_of_episode e))
                      (zip where_clauses params) = true) es).
Proof.
  unfold sql_where. induction es as [|e es IH]; [done|]. simpl.
  destruct (decide (forallb (λ cp, eval_clause cp.1 cp.2 (EpisodeStore.row_of_episode e))
                      (zip where_clauses params) = true)) as [Hm|Hm].
  - rewrite !filter_cons_True by done. simpl. by rewrite <- IH.
  - rewrite !filter_cons_False by done. by rewrite <- IH.
Qed.

Lemma traverse_rows_summary es :
  Forall saved_episode es →
  traverse EpisodeStore._row_to_summary (map EpisodeStore.row_of_episode es)
  = Returned (map EpisodeSummary.of_episode es).
Proof.
  intros Hes. apply traverse_map_returned.
  eapply Forall_impl; [exact Hes|]. intros e He. by apply row_to_summary_saved.
Qed.

Lemma traverse_rows_dump now es :
  Forall saved_episode es →
  traverse (λ r, Episode.model_dump <$> EpisodeStore._row_to_episode now r)
    (map EpisodeStore.row_of_episode es)
  = Returned (map Episode.model_dump es).
Proof.
  intros Hes. apply traverse_map_returned.
  eapply Forall_impl; [exact Hes|]. intros e He. by rewrite row_to_episode_saved.
Qed.

Lemma sql_limit_offset_map {A B} (f : A → B) limit offset l :
  sql_limit_offset limit offset (map f l) = map f (sql_limit_offset limit offset l).
Proof.
  unfold sql_limit_offset. destruct (limit <? 0).
  - symmetry. apply fmap_drop.
  - rewrite <- fmap_drop. symmetry. apply fmap_take.
Qed.

Lemma sql_limit_offset_all {A} limit offset (l : list A) :
  limit < 0 ∨ Z.of_nat (length l) ≤ limit → offset ≤ 0 →
  sql_limit_offset limit offset l = l.
Proof.
  intros Hlimit Hoffset. unfold sql_limit_offset.
  replace (Z.to_nat offset) with 0%nat by lia. rewrite drop_0.
  destruct (Z.ltb_spec limit 0); [done|]. apply take_ge. lia.
Qed.

Context `{!SqlEngine} `{!SqlEngineLaws}.

(** What the ordered [SELECT] returns on a store of saved episodes. *)
Lemma select_ordered_saved filters es :
  Forall saved_episode es →
  ∃ selected,
    EpisodeStore.select_ordered filters (map EpisodeStore.row_of_episode es)
    = map EpisodeStore.row_of_episode selected
    ∧ selected ≡ₚ filter (λ e, forallb (λ cp, eval_clause (fst cp) (snd cp)
                                          (EpisodeStore.row_of_episode e))
                                 (zip (fst filters) (snd filters)) = true) es
    ∧ StronglySorted (newer_first Episode.started_at) selected
    ∧ Forall saved_episode selected.
Proof.
  intros Hes. unfold EpisodeStore.select_ordered. rewrite sql_where_rows.
  set (matching := filter _ es).
  pose proof (order_by_permutation (fst filters) (snd filters)
                (map EpisodeStore.row_of_episode matching)) as Hperm.
  pose proof (order_by_sorted (fst filters) (snd filters)
                (map EpisodeStore.row_of_episode matching)) as Hsorted.
  apply Permutation_map_inv in Hperm as (selected & Heq & Hperm).
  exists selected. rewrite Heq in *. split_and!; [done|by symmetry| |].
  - clear -Hsorted. induction selected as [|e l IH]; [constructor|].
    simpl in Hsorted. apply StronglySorted_inv in Hsorted as [Hl He].
    constructor; [by apply IH|].
    apply Forall_forall. intros x Hx. rewrite Forall_forall in He.
    apply (He (EpisodeStore.row_of_episode x)). by apply list_elem_of_fmap_2.
  - rewrite <- Hperm. apply Forall_forall. intros x [_ Hx]%list_elem_of_filter.
    by eapply Forall_forall in Hes.
Qed.

End SelectFacts.
Section ListFacts.
Context `{Float64Laws} `{!SqlEngine} `{!SqlEngineLaws}.

Lemma truthy_Some_nonempty s : truthy (Some s) = true → s ≠ EmptyString.
Proof. simpl. by destruct (String.eqb_spec s EmptyString). Qed.

Lemma eval_agent a row :
  eval_clause "AND agent_id = ?" a row = String.eqb (Row.agent_id row) a.
Proof. reflexivity. Qed.

Lemma eval_status s row :
  eval_clause "AND status = ?" s row = String.eqb (Row.status row) s.
Proof. reflexivity. Qed.

Lemma eval_since t row :
  eval_clause "AND started_at >= ?" t row = text_le t (Row.started_at row).
Proof. reflexivity. Qed.

Lemma eval_until u row :
  eval_clause "AND started_at <= ?" u row = text_le (Row.started_at row) u.
Proof. reflexivity. Qed.

Lemma eqb_bool_decide_Some (x y : string) :
  String.eqb x y = bool_decide (Some y = Some x).
Proof.
  destruct (String.eqb_spec x y) as [->|Hne].
  - by rewrite bool_decide_eq_true_2.
  - rewrite bool_decide_eq_false_2; [done|]. by intros [= ->].
Qed.

(** The conditions built for the shared filters hold of a row exactly
    when [shared_match] holds of its episode. *)
Lemma shared_filters_match agent_id status since until e :
  let filters :=
    EpisodeStore.date_filters (EpisodeStore.agent_status_filters agent_id status)
      since until in
  forallb (λ cp, eval_clause (fst cp) (snd cp) (EpisodeStore.row_of_episode e))
    (zip (fst filters) (snd filters))
  = shared_match agent_id status since until e.
Proof.
  unfold shared_match, EpisodeStore.date_filters, EpisodeStore.agent_status_filters,
    EpisodeStore.push.
  destruct agent_id as [a|], status as [s|], since as [t|], until as [u|]; simpl;
    repeat match goal with
           | |- context [String.eqb ?x EmptyString] =>
               destruct (String.eqb_spec x EmptyString); subst; simpl
           end;
    rewrite ?eval_agent, ?eval_status, ?eval_since, ?eval_until; simpl;
    rewrite ?eqb_bool_decide_Some, ?andb_true_r, ?andb_assoc; done.
Qed.

Lemma list_filters_shared agent_id status since until :
  EpisodeStore.list_filters agent_id status since until None None None
  = EpisodeStore.date_filters (EpisodeStore.agent_status_filters agent_id status)
      since until.
Proof. reflexivity. Qed.

End ListFacts.
Lemma holds_new_store : @holds half_float new_store [].
Proof. apply (@init_holds half_float). Qed.

Lemma payload_a_valid : @EpisodeCreate.valid half_float payload_a.
Proof. split; [done|]. repeat constructor; done. Qed.

Lemma payload_b_valid : @EpisodeCreate.valid half_float payload_b.
Proof. split; [done|]. repeat constructor; done. Qed.

Lemma persisted_created `{Float64} now uuid payload :
  plain_metadata (EpisodeCreate.steps payload) →
  persisted (created now uuid payload) = created now uuid payload.
Proof. intros Hplain. unfold persisted, created. simpl. by rewrite stored_step_id. Qed.

Lemma holds_after_create store es now uuid payload :
  @holds half_float store es → @EpisodeCreate.valid half_float payload →
  uuid ∉ map Episode.episode_id es →
  sqlite_fits (EpisodeCreate.steps payload) = true →
  plain_metadata (EpisodeCreate.steps payload) →
  @holds half_float (after_create store now uuid payload) (es ++ [created now uuid payload]).
Proof.
  intros Hh Hv Hf Hfits Hplain.
  destruct (@create_holds half_float half_float_laws store es now uuid payload Hh Hv Hf
              Hfits) as (store' & Hc & Hh').
  unfold after_create. rewrite Hc. by rewrite persisted_created in Hh'.
Qed.

Lemma holds_store_a : @holds half_float store_a [episode_a].
Proof.
  apply (holds_after_create new_store []);
    [apply holds_new_store|apply payload_a_valid|apply not_elem_of_nil|done|].
  repeat constructor.
Qed.

Lemma holds_store_tagged : @holds half_float store_tagged [episode_tagged].
Proof.
  apply (holds_after_create new_store []);
    [apply holds_new_store| |apply not_elem_of_nil|done|repeat constructor].
  split; [done|]. repeat constructor; done.
Qed.

Lemma holds_store_ab : @holds half_float store_ab [episode_a; episode_b].
Proof.
  apply (holds_after_create store_a [episode_a]);
    [apply holds_store_a|apply payload_b_valid| |done|repeat constructor].
  apply not_elem_of_cons. split; [done|apply not_elem_of_nil].
Qed.

Lemma holds_store_none : @holds half_float store_none [episode_untooled; episode_none_tool].
Proof.
  apply (holds_after_create _ [episode_untooled]); [| | |done|repeat constructor].
  - apply (holds_after_create new_store []);
      [apply holds_new_store| |apply not_elem_of_nil|done|repeat constructor].
    split; [done|]. repeat constructor; done.
  - split; [done|]. repeat constructor; done.
  - apply not_elem_of_cons. split; [done|apply not_elem_of_nil].
Qed.

Lemma holds_store_costly : @holds half_float store_costly [episode_x; episode_y].
Proof.
  apply (holds_after_create _ [episode_x]); [| | |done|repeat constructor].
  - apply (holds_after_create new_store []);
      [apply holds_new_store| |apply not_elem_of_nil|done|repeat constructor].
    split; [done|]. repeat constructor; done.
  - split; [done|]. repeat constructor; done.
  - apply not_elem_of_cons. split; [done|apply not_elem_of_nil].
Qed.

Lemma payload_huge_valid : @EpisodeCreate.valid half_float payload_huge.
Proof. split; [done|]. repeat constructor; done. Qed.

Lemma payload_scored_valid : @EpisodeCreate.valid half_float payload_scored.
Proof. split; [done|]. repeat constructor; done. Qed.

Lemma bulk_id_inj j k : bulk_id j = bulk_id k → j = k.
Proof.
  unfold bulk_id. intros [= Heq]. cbv [String.append] in Heq.
  apply (f_equal list_ascii_of_string) in Heq.
  rewrite !list_ascii_of_string_of_list_ascii in Heq.
  apply (f_equal int_of_literal) in Heq.
  rewrite !int_of_literal_repr in Heq.
  injection Heq as Hz. lia.
Qed.

Lemma holds_bulk n :
  @holds half_float
    (foldl (λ store k, after_create store "2024-01-02T00:00:00+00:00" (bulk_id k) payload_b)
       new_store (seq 0 n))
    ((λ k, created "2024-01-02T00:00:00+00:00" (bulk_id k) payload_b) <$> seq 0 n).
Proof.
  induction n as [|n IH]; [apply holds_new_store|].
  rewrite seq_S, foldl_app, fmap_app. simpl.
  apply holds_after_create; [done|apply payload_b_valid| |done|repeat constructor].
  intros Hin. apply (list_elem_of_fmap_1 Episode.episode_id) in Hin as (e & Hid & He).
  apply list_elem_of_fmap_1 in He as (k & -> & Hk). simpl in Hid.
  apply bulk_id_inj in Hid as <-. apply elem_of_seq in Hk. lia.
Qed.

Lemma holds_bulk_store : @holds half_float bulk_store bulk_episodes.
Proof. apply (holds_bulk 51). Qed.

Lemma get_store_a now :
  @EpisodeStore.get half_float store_a now "id-a" = Returned (Some episode_a).
Proof. vm_cast_no_check (eq_refl (Returned (Some episode_a))). Qed.

Lemma get_store_ab_a now :
  @EpisodeStore.get half_float store_ab now "id-a" = Returned (Some episode_a).
Proof. vm_cast_no_check (eq_refl (Returned (Some episode_a))). Qed.

Lemma get_store_ab_b now :
  @EpisodeStore.get half_float store_ab now "id-b" = Returned (Some episode_b).
Proof. vm_cast_no_check (eq_refl (Returned (Some episode_b))). Qed.

(* ------------------------------------------------------------------ *)
(** ** The claims *)

(** C1, as amended.  A valid creation on a store that holds [es], under a
    fresh identifier, raises [OverflowError] and stores nothing when the
    number of its steps or the sum of their tokens or of their durations
    does not fit a signed 64-bit integer.  Otherwise it returns an
    episode and persists it: [get] finds under its identifier an episode
    with the same summary, whose aggregates are those of the supplied
    steps.  [step_count] is their number, [total_tokens] and
    [total_duration_ms] are the sums of their tokens and durations,
    [total_cost_usd] is the sum of their costs rounded to 6 places, and
    [tools_used] lists, without repetition and in order of first
    occurrence, the tool names of the steps that have a non-empty one. *)
Theorem create_aggregates `{Float64Laws} store es now uuid payload :
  holds store es → EpisodeCreate.valid payload → uuid ∉ map Episode.episode_id es →
  let steps := EpisodeCreate.steps payload in
  (sqlite_fits steps = false →
   EpisodeStore.create store now uuid payload = Raised OverflowError)
  ∧ (sqlite_fits steps = true →
     ∃ episode store' stored,
       EpisodeStore.create store now uuid payload = Returned (episode, store')
       ∧ holds store' (es ++ [stored])
       ∧ (∀ later, EpisodeStore.get store' later uuid = Returned (Some stored))
       ∧ EpisodeSummary.of_episode stored = EpisodeSummary.of_episode episode
       ∧ Episode.episode_id stored = uuid
       ∧ Episode.steps episode = steps
       ∧ Episode.step_count stored = Z.of_nat (length steps)
       ∧ Episode.total_tokens stored = spec_total (map EpisodeStep.tokens steps)
       ∧ Episode.total_cost_usd stored
         = float_round6 (float_sum (map EpisodeStep.cost_usd steps))
       ∧ float_ge0 (Episode.total_cost_usd stored) = true
       ∧ Episode.total_duration_ms stored
         = spec_total (map EpisodeStep.duration_ms steps)
       ∧ Episode.tools_used stored = dedup_first (named_tools steps)
       ∧ NoDup (Episode.tools_used stored)
       ∧ (∀ name, name ∈ Episode.tools_used stored
            ↔ name ≠ EmptyString
              ∧ ∃ s, s ∈ steps ∧ EpisodeStep.tool_name s = Some name)).
Proof.
  intros Hholds Hvalid Hfresh steps.
  split; [intros Hfits; by eapply create_overflow|]. intros Hfits.
  destruct (create_holds store es now uuid payload Hholds Hvalid Hfresh Hfits)
    as (store' & Hcreate & Hholds').
  exists (created now uuid payload), store', (persisted (created now uuid payload)).
  split; [done|]. split; [done|]. split.
  { intros later. rewrite (get_holds _ _ _ _ Hholds').
    destruct Hholds' as (_ & _ & Hnd).
    pose proof (find_episode_Some _ (persisted (created now uuid payload)) Hnd) as Hfind.
    simpl in Hfind. rewrite Hfind; [done|]. apply elem_of_app. right. by left. }
  split; [reflexivity|].
  pose proof (compute_aggregates_tools
                (Episode.mk _ uuid (EpisodeCreate.agent_id payload)
                   (EpisodeCreate.status payload) steps [] 0 float_zero 0 0 now
                   (if bool_decide (EpisodeCreate.status payload ≠ RUNNING)
                    then Some now else None)
                   (EpisodeCreate.metadata payload))) as Htools.
  destruct Hvalid as (_ & Hsteps).
  pose proof (aggregates_ge0
                (Episode.mk _ uuid (EpisodeCreate.agent_id payload)
                   (EpisodeCreate.status payload) steps [] 0 float_zero 0 0 now
                   (if bool_decide (EpisodeCreate.status payload ≠ RUNNING)
                    then Some now else None)
                   (EpisodeCreate.metadata payload)) Hsteps) as (_ & Hcost & _).
  simpl in Htools, Hcost. unfold created, persisted. simpl.
  rewrite !sum_spec_total. fold steps. rewrite Htools.
  split_and!; try done.
  - apply dedup_first_NoDup.
  - intros name. by rewrite dedup_first_elem, named_tools_elem.
Qed.

Lemma create_aggregates_witness :
  ∃ episode store' stored,
    @EpisodeStore.create half_float new_store "2024-01-02T00:00:00+00:00" "id-a" payload_a
    = Returned (episode, store')
    ∧ EpisodeStore.get store' "2024-01-03T00:00:00+00:00" "id-a" = Returned (Some stored)
    ∧ Episode.step_count stored = 2
    ∧ Episode.total_tokens stored = 350
    ∧ Episode.total_cost_usd stored = Half 4
    ∧ Episode.total_duration_ms stored = 2000
    ∧ Episode.tools_used stored = ["web_search"]%string.
Proof.
  destruct (@create_aggregates half_float half_float_laws new_store []
              "2024-01-02T00:00:00+00:00" "id-a" payload_a
              holds_new_store payload_a_valid (not_elem_of_nil _))
    as (_ & Hfits).
  destruct (Hfits eq_refl)
    as (episode & store' & stored & Hcreate & _ & Hget & _ & _ & _ & Hcount & Htokens
        & Hcost & _ & Hduration & Htools & _).
  exists episode, store', stored.
  rewrite Hget, Hcount, Htokens, Hcost, Hduration, Htools.
  split_and!; [done|done|..]; vm_compute; reflexivity.
Defined.

(** C1, counterexample.  The payload is valid: an agent and two steps of
    [2 ^ 62] tokens each.  Their sum is [2 ^ 63], which the [INTEGER]
    column cannot take: [create] raises and no episode is persisted. *)
Lemma create_overflow_counterexample :
  @holds half_float new_store []
  ∧ @EpisodeCreate.valid half_float payload_huge
  ∧ spec_total (@EpisodeStep.tokens half_float <$> [huge_step; huge_step]) = 2 ^ 63
  ∧ @EpisodeStore.create half_float new_store "2024-01-02T00:00:00+00:00" "id-h"
      payload_huge = Raised OverflowError
  ∧ ¬ @persists_aggregates half_float new_store "2024-01-02T00:00:00+00:00" "id-h"
        payload_huge.
Proof.
  assert (@EpisodeStore.create half_float new_store "2024-01-02T00:00:00+00:00" "id-h"
            payload_huge = Raised OverflowError) as Hraise.
  { vm_cast_no_check (eq_refl (@Raised (@Episode.t half_float * @EpisodeStore.t half_float)
                    OverflowError)). }
  split_and!; [apply holds_new_store|apply payload_huge_valid|reflexivity|done|].
  intros (episode & store' & stored & Hcreate & _). rewrite Hraise in Hcreate.
  discriminate Hcreate.
Qed.

(** C2, as amended.  After a valid creation whose integers fit, [get] on
    the identifier of the episode that [create] returned gives back that
    episode, equal in every field, but for the metadata of its steps,
    which come back as [mode="json"] wrote them: an infinity or a NaN
    inside them is [None].  When the metadata of the steps hold neither,
    [get] gives back the very episode that [create] returned: the steps
    with all their fields and their metadata survive the trip through
    the JSON text of the row. *)
Theorem get_after_create `{Float64Laws} store es now uuid payload :
  holds store es → EpisodeCreate.valid payload → uuid ∉ map Episode.episode_id es →
  sqlite_fits (EpisodeCreate.steps payload) = true →
  ∃ episode store',
    EpisodeStore.create store now uuid payload = Returned (episode, store')
    ∧ Episode.steps episode = EpisodeCreate.steps payload
    ∧ Episode.metadata episode = EpisodeCreate.metadata payload
    ∧ Episode.agent_id episode = EpisodeCreate.agent_id payload
    ∧ Episode.status episode = EpisodeCreate.status payload
    ∧ (∀ later,
         ∃ stored,
           EpisodeStore.get store' later (Episode.episode_id episode)
           = Returned (Some stored)
           ∧ EpisodeSummary.of_episode stored = EpisodeSummary.of_episode episode
           ∧ Episode.metadata stored = Episode.metadata episode
           ∧ length (Episode.steps stored) = length (Episode.steps episode)
           ∧ ∀ i s, Episode.steps episode !! i = Some s →
               ∃ s', Episode.steps stored !! i = Some s'
                     ∧ EpisodeStep.model_dump s' = EpisodeStep.model_dump s
                     ∧ EpisodeStep.metadata s' = jsonable_items (EpisodeStep.metadata s)
                     ∧ (jsonable_items (EpisodeStep.metadata s) = EpisodeStep.metadata s
                        → s' = s))
    ∧ (plain_metadata (EpisodeCreate.steps payload) →
       ∀ later,
         EpisodeStore.get store' later (Episode.episode_id episode)
         = Returned (Some episode)).
Proof.
  intros Hholds Hvalid Hfresh Hfits.
  destruct (create_holds store es now uuid payload Hholds Hvalid Hfresh Hfits)
    as (store' & Hcreate & Hholds').
  assert (∀ later, EpisodeStore.get store' later uuid
                   = Returned (Some (persisted (created now uuid payload)))) as Hget.
  { intros later. rewrite (get_holds _ _ _ _ Hholds').
    destruct Hholds' as (_ & _ & Hnd).
    pose proof (find_episode_Some _ (persisted (created now uuid payload)) Hnd) as Hfind.
    simpl in Hfind. rewrite Hfind; [done|]. apply elem_of_app. right. by left. }
  exists (created now uuid payload), store'. split_and!; try done.
  - intros later. exists (persisted (created now uuid payload)).
    split; [apply Hget|]. split_and!; try done.
    + simpl. by rewrite length_fmap.
    + intros i s Hs. exists (stored_step s). simpl in *.
      rewrite list_lookup_fmap, Hs. split_and!; try done.
      * apply model_dump_stored_step.
      * intros Hplain. destruct s. unfold stored_step. simpl in *. by rewrite Hplain.
  - intros Hplain later. simpl. rewrite Hget. by rewrite persisted_created.
Qed.

Lemma get_after_create_witness :
  ∃ episode store',
    @EpisodeStore.create half_float new_store "2024-01-02T00:00:00+00:00" "id-a" payload_a
    = Returned (episode, store')
    ∧ EpisodeStore.get store' "2024-01-03T00:00:00+00:00" (Episode.episode_id episode)
      = Returned (Some episode)
    ∧ Episode.steps episode = [llm_step; tool_step].
Proof.
  destruct (@get_after_create half_float half_float_laws new_store []
              "2024-01-02T00:00:00+00:00" "id-a" payload_a
              holds_new_store payload_a_valid (not_elem_of_nil _) eq_refl)
    as (episode & store' & Hcreate & Hsteps & _ & _ & _ & _ & Hget).
  exists episode, store'. rewrite Hget; [done|]. repeat constructor.
Defined.

(** C2, counterexample.  For the valid payload whose tokens add up to
    [2 ^ 63], [create] raises and returns no episode to look up.  For the
    valid payload whose step carries a NaN in its metadata, [create]
    returns the episode, and [get] returns it with [None] in the place of
    the NaN. *)
Lemma get_after_create_counterexample :
  @holds half_float new_store []
  ∧ @EpisodeCreate.valid half_float payload_huge
  ∧ ¬ @get_returns_created half_float new_store "2024-01-02T00:00:00+00:00" "id-h"
        payload_huge
  ∧ @EpisodeCreate.valid half_float payload_scored
  ∧ @sqlite_fits half_float [scored_step] = true
  ∧ ¬ @get_returns_created half_float new_store "2024-01-02T00:00:00+00:00" "id-s"
        payload_scored
  ∧ (∃ episode store' stored,
       @EpisodeStore.create half_float new_store "2024-01-02T00:00:00+00:00" "id-s"
         payload_scored = Returned (episode, store')
       ∧ EpisodeStore.get store' "2024-01-02T00:00:00+00:00" "id-s"
         = Returned (Some stored)
       ∧ EpisodeStep.metadata <$> Episode.steps episode
         = [[("score"%string, @JFloat half_float HalfNaN)]]
       ∧ EpisodeStep.metadata <$> Episode.steps stored
         = [[("score"%string, @JNull half_float)]]).
Proof.
  assert (@EpisodeStore.create half_float new_store "2024-01-02T00:00:00+00:00" "id-h"
            payload_huge = Raised OverflowError) as Hraise.
  { vm_cast_no_check (eq_refl (@Raised (@Episode.t half_float * @EpisodeStore.t half_float)
                    OverflowError)). }
  set (episode := created "2024-01-02T00:00:00+00:00" "id-s" payload_scored).
  set (store' := after_create new_store "2024-01-02T00:00:00+00:00" "id-s" payload_scored).
  assert (@EpisodeStore.create half_float new_store "2024-01-02T00:00:00+00:00" "id-s"
            payload_scored = Returned (episode, store')) as Hcreate.
  { vm_cast_no_check (eq_refl (Returned (episode, store'))). }
  assert (@EpisodeStore.get half_float store' "2024-01-02T00:00:00+00:00" "id-s"
          = Returned (Some (persisted episode))) as Hget.
  { vm_cast_no_check (eq_refl (Returned (Some (persisted episode)))). }
  split_and!; [apply holds_new_store|apply payload_huge_valid| |apply payload_scored_valid
              |reflexivity| |].
  - intros (e & s & Hc & _). rewrite Hraise in Hc. discriminate Hc.
  - intros (e & s & Hc & Hg). rewrite Hcreate in Hc. injection Hc as <- <-.
    change (Episode.episode_id episode) with "id-s"%string in Hg.
    rewrite Hget in Hg. discriminate Hg.
  - by exists episode, store', (persisted episode).
Qed.

(** C3, at failing inputs.  The stored episode has one step, which names
    no model and no provider, uses the tool [web-search] and carries the
    keys [model] and [provider] in its metadata.  Filtering on the model
    [gpt-4] or on the provider [openai] returns the episode although no
    step has that model or provider, and filtering on the tool
    [web_search] returns it although that name is not in its
    [tools_used]. *)
Theorem list_like_filters_misfire :
  @holds half_float store_tagged [episode_tagged]
  ∧ @EpisodeStore.list half_float sorter_engine store_tagged None None None None
      (Some "gpt-4"%string) None None 50 0
    = Returned [EpisodeSummary.of_episode episode_tagged]
  ∧ ¬ uses_model "gpt-4" episode_tagged
  ∧ @EpisodeStore.list half_float sorter_engine store_tagged None None None None
      None (Some "openai"%string) None 50 0
    = Returned [EpisodeSummary.of_episode episode_tagged]
  ∧ ¬ uses_provider "openai" episode_tagged
  ∧ @EpisodeStore.list half_float sorter_engine store_tagged None None None None
      None None (Some "web_search"%string) 50 0
    = Returned [EpisodeSummary.of_episode episode_tagged]
  ∧ ¬ uses_tool "web_search" episode_tagged.
Proof.
  split_and!.
  - apply holds_store_tagged.
  - vm_cast_no_check (eq_refl (Returned [EpisodeSummary.of_episode episode_tagged])).
  - intros [Hs|Hs]%Exists_cons; [discriminate Hs|by apply Exists_nil in Hs].
  - vm_cast_no_check (eq_refl (Returned [EpisodeSummary.of_episode episode_tagged])).
  - intros [Hs|Hs]%Exists_cons; [discriminate Hs|by apply Exists_nil in Hs].
  - vm_cast_no_check (eq_refl (Returned [EpisodeSummary.of_episode episode_tagged])).
  - intros Hin%list_elem_of_singleton. discriminate Hin.
Qed.

(** C4, at a failing input.  The two stored episodes have one step each,
    and the steps differ in their tool: the left step has none, the right
    step has the tool named [None].  [diff] compares the renderings by
    [str], which are the same text for both: it reports no record and
    counts the position as matching, so that the diff does not show the
    step that changed. *)
Theorem diff_misses_none_tool :
  @holds half_float store_none [episode_untooled; episode_none_tool]
  ∧ Episode.steps episode_untooled = [untooled_step]
  ∧ Episode.steps episode_none_tool = [none_tool_step]
  ∧ EpisodeStep.tool_name untooled_step = None
  ∧ EpisodeStep.tool_name none_tool_step = Some "None"%string
  ∧ EpisodeStep.getattr_str untooled_step "tool_name"
    = EpisodeStep.getattr_str none_tool_step "tool_name"
  ∧ @EpisodeStore.diff half_float store_none "now" "id-l" "id-r"
    = Returned (Some (EpisodeDiff.mk half_float "id-l" "id-r" 1 1 1 0 0 0 0 (Half 0) 0 [])).
Proof.
  split_and!; [apply holds_store_none|reflexivity..|].
  vm_cast_no_check
    (eq_refl (Returned (Some (EpisodeDiff.mk half_float "id-l" "id-r" 1 1 1 0 0 0 0
                                (Half 0) 0 [])))).
Qed.

(** How [diff] compares.  The steps of two stored episodes are compared
    position by position up to the shorter length, over the six fields of
    [compare_fields], on their [str] renderings: a step kind renders as
    the name of its member, a text as itself and [None] as the text None,
    so that two values render alike when they are equal or when one is
    [None] and the other the text None.  Each mismatch gives exactly one
    record with the position, the field and both renderings; a compared
    position counts as differing when it has a mismatch and as matching
    otherwise; [extra_left] and [extra_right] are the excess lengths, at
    most one of them nonzero. *)
Theorem diff_positional `{Float64} store now left_id right_id l r :
  EpisodeStore.get store now left_id = Returned (Some l) →
  EpisodeStore.get store now right_id = Returned (Some r) →
  let ls := Episode.steps l in
  let rs := Episode.steps r in
  ∃ d,
    EpisodeStore.diff store now left_id right_id = Returned (Some d)
    ∧ EpisodeStore.compare_fields
      = ["step_type"; "tool_name"; "model"; "provider"; "input_summary";
         "output_summary"]%string
    ∧ (∀ s, EpisodeStep.getattr_str s <$> EpisodeStore.compare_fields
            = [StepType_str (EpisodeStep.step_type s); str_opt (EpisodeStep.tool_name s);
               str_opt (EpisodeStep.model s); str_opt (EpisodeStep.provider s);
               str_opt (EpisodeStep.input_summary s);
               str_opt (EpisodeStep.output_summary s)])
    ∧ StepType_str <$> [LLM_CALL; TOOL_CALL; TOOL_RESULT; DECISION; ERROR]
      = ["StepType.LLM_CALL"; "StepType.TOOL_CALL"; "StepType.TOOL_RESULT";
         "StepType.DECISION"; "StepType.ERROR"]%string
    ∧ (∀ text, str_opt (Some text) = text)
    ∧ str_opt None = "None"%string
    ∧ (∀ a b, str_opt a = str_opt b
              ↔ a = b ∨ (a = None ∧ b = Some "None"%string)
                ∨ (a = Some "None"%string ∧ b = None))
    ∧ EpisodeDiff.step_diffs d = positional_diffs ls rs
    ∧ NoDup (EpisodeDiff.step_diffs d)
    ∧ (∀ record, record ∈ EpisodeDiff.step_diffs d
         ↔ ∃ i lstep rstep field,
             ls !! i = Some lstep ∧ rs !! i = Some rstep
             ∧ field ∈ EpisodeStore.compare_fields
             ∧ EpisodeStep.getattr_str lstep field ≠ EpisodeStep.getattr_str rstep field
             ∧ record = StepDiff.mk (Z.of_nat i) field
                          (Some (EpisodeStep.getattr_str lstep field))
                          (Some (EpisodeStep.getattr_str rstep field)))
    ∧ EpisodeDiff.differing_steps d
      = Z.of_nat (length (filter (λ p, steps_differ (fst p) (snd p)) (zip ls rs)))
    ∧ EpisodeDiff.matching_steps d
      = Z.of_nat (length (filter (λ p, ¬ steps_differ (fst p) (snd p)) (zip ls rs)))
    ∧ EpisodeDiff.matching_steps d + EpisodeDiff.differing_steps d
      = Z.of_nat (min (length ls) (length rs))
    ∧ EpisodeDiff.left_step_count d = Z.of_nat (length ls)
    ∧ EpisodeDiff.right_step_count d = Z.of_nat (length rs)
    ∧ EpisodeDiff.extra_left d = Z.max 0 (Z.of_nat (length ls) - Z.of_nat (length rs))
    ∧ EpisodeDiff.extra_right d = Z.max 0 (Z.of_nat (length rs) - Z.of_nat (length ls))
    ∧ (EpisodeDiff.extra_left d = 0 ∨ EpisodeDiff.extra_right d = 0).
Proof.
  intros Hl Hr ls rs. eexists. split; [by apply diff_returns|].
  unfold diff_state. simpl. fold ls rs. split_and!; try done.
  - intros [a|] [b|]; simpl; naive_solver.
  - rewrite positional_diffs_from. apply positional_from_NoDup.
  - intros record. rewrite positional_diffs_from. apply positional_from_elem.
  - rewrite <- Nat2Z.inj_add. f_equal.
    rewrite <- (length_zip_with pair ls rs).
    generalize (zip ls rs). induction l0 as [|p ps IH]; [done|].
    destruct (decide (steps_differ p.1 p.2)).
    + rewrite (filter_cons_False (λ p, ¬ steps_differ p.1 p.2)) by tauto.
      rewrite (filter_cons_True (λ p, steps_differ p.1 p.2)) by done. simpl. lia.
    + rewrite (filter_cons_True (λ p, ¬ steps_differ p.1 p.2)) by done.
      rewrite (filter_cons_False (λ p, steps_differ p.1 p.2)) by done. simpl. lia.
  - lia.
Qed.

Lemma diff_positional_witness :
  ∃ d,
    @EpisodeStore.diff half_float store_ab "now" "id-a" "id-b" = Returned (Some d)
    ∧ EpisodeDiff.step_diffs d
      = [StepDiff.mk 0 "step_type" (Some "StepType.LLM_CALL") (Some "StepType.TOOL_CALL");
         StepDiff.mk 0 "tool_name" (Some "None") (Some "web_search");
         StepDiff.mk 0 "model" (Some "gpt-4") (Some "None");
         StepDiff.mk 0 "provider" (Some "openai") (Some "None");
         StepDiff.mk 0 "input_summary" (Some "Hello") (Some "None");
         StepDiff.mk 0 "output_summary" (Some "Hi there") (Some "None")]%string
    ∧ EpisodeDiff.differing_steps d = 1
    ∧ EpisodeDiff.matching_steps d = 0
    ∧ EpisodeDiff.extra_left d = 1
    ∧ EpisodeDiff.extra_right d = 0.
Proof.
  destruct (@diff_positional half_float store_ab "now" "id-a" "id-b"
              episode_a episode_b (get_store_ab_a _) (get_store_ab_b _))
    as (d & Hdiff & _ & _ & _ & _ & _ & _ & Hrecords & _ & _ & Hdiffering & Hmatching
        & _ & _ & _ & Hleft & Hright & _).
  exists d. rewrite Hrecords, Hdiffering, Hmatching, Hleft, Hright.
  split_and!; [done|..]; vm_compute; reflexivity.
Defined.

(** C5, as amended.  The deltas of [diff] are right minus left, the cost
    delta rounded to 6 places.  Swapping the two episodes negates the
    token and duration deltas, and the records of the swapped comparison
    are the same positions and fields with the two values exchanged.  It
    negates the cost delta too (as [==] has it: both deltas are zeros
    when the costs are equal) unless the total costs of both episodes are
    infinite: then both cost deltas are NaN, which equals nothing. *)
Theorem diff_antisymmetric `{Float64Laws} store now a_id b_id a b :
  EpisodeStore.get store now a_id = Returned (Some a) →
  EpisodeStore.get store now b_id = Returned (Some b) →
  let both_infinite :=
    float_eqb (Episode.total_cost_usd a) float_inf
    && float_eqb (Episode.total_cost_usd b) float_inf in
  ∃ dab dba,
    EpisodeStore.diff store now a_id b_id = Returned (Some dab)
    ∧ EpisodeStore.diff store now b_id a_id = Returned (Some dba)
    ∧ EpisodeDiff.token_delta dab = Episode.total_tokens b - Episode.total_tokens a
    ∧ EpisodeDiff.duration_delta dab
      = Episode.total_duration_ms b - Episode.total_duration_ms a
    ∧ EpisodeDiff.cost_delta dab
      = float_round6 (float_sub (Episode.total_cost_usd b) (Episode.total_cost_usd a))
    ∧ EpisodeDiff.token_delta dab = - EpisodeDiff.token_delta dba
    ∧ EpisodeDiff.duration_delta dab = - EpisodeDiff.duration_delta dba
    ∧ EpisodeDiff.step_diffs dba = swap_sides <$> EpisodeDiff.step_diffs dab
    ∧ (both_infinite = false →
       float_eqb (EpisodeDiff.cost_delta dab) (float_neg (EpisodeDiff.cost_delta dba))
       = true)
    ∧ (both_infinite = true →
       EpisodeDiff.cost_delta dab = float_nan
       ∧ EpisodeDiff.cost_delta dba = float_nan
       ∧ float_eqb (EpisodeDiff.cost_delta dab) (float_neg (EpisodeDiff.cost_delta dba))
         = false).
Proof.
  intros Ha Hb both_infinite. eexists _, _.
  split; [by apply diff_returns|]. split; [by apply diff_returns|].
  pose proof (get_cost_ge0 _ _ _ _ Ha) as Hga.
  pose proof (get_cost_ge0 _ _ _ _ Hb) as Hgb.
  unfold diff_state. simpl. split_and!; try done; try lia.
  - rewrite !positional_diffs_from. apply positional_from_swap.
  - intros Hinf. apply round6_sub_neg; [done|done|].
    subst both_infinite. by rewrite andb_comm.
  - intros [->%float_eqb_inf ->%float_eqb_inf]%andb_prop.
    rewrite float_sub_inf, float_round6_nan. split_and!; [done|done|].
    apply float_eqb_nan.
Qed.

Lemma diff_antisymmetric_witness :
  ∃ dab dba,
    @EpisodeStore.diff half_float store_ab "now" "id-a" "id-b" = Returned (Some dab)
    ∧ @EpisodeStore.diff half_float store_ab "now" "id-b" "id-a" = Returned (Some dba)
    ∧ EpisodeDiff.token_delta dab = -150
    ∧ EpisodeDiff.token_delta dba = 150
    ∧ EpisodeDiff.cost_delta dab = Half (-1)
    ∧ half_eqb (EpisodeDiff.cost_delta dab) (half_neg (EpisodeDiff.cost_delta dba)) = true.
Proof.
  destruct (@diff_antisymmetric half_float half_float_laws store_ab "now" "id-a" "id-b"
              episode_a episode_b (get_store_ab_a _) (get_store_ab_b _))
    as (dab & dba & Hab & Hba & Htok & _ & Hcost & Hneg & _ & _ & Hfinite & _).
  assert (Episode.total_tokens episode_b - Episode.total_tokens episode_a = -150) as Hval
    by (vm_compute; reflexivity).
  rewrite Hval in Htok. exists dab, dba.
  split_and!; [done|done|done|lia| |by apply Hfinite].
  rewrite Hcost. vm_compute. reflexivity.
Defined.

(** C5, counterexample.  Each of the two stored episodes has one step, of
    infinite cost, so that its total cost is infinite.  Both cost deltas
    are NaN, and the one is not the negation of the other. *)
Lemma diff_cost_counterexample :
  @holds half_float store_costly [episode_x; episode_y]
  ∧ Episode.total_cost_usd episode_x = HalfInf
  ∧ Episode.total_cost_usd episode_y = HalfInf
  ∧ (∃ dxy dyx,
       @EpisodeStore.diff half_float store_costly "now" "id-x" "id-y"
       = Returned (Some dxy)
       ∧ @EpisodeStore.diff half_float store_costly "now" "id-y" "id-x"
         = Returned (Some dyx)
       ∧ EpisodeDiff.cost_delta dxy = HalfNaN
       ∧ EpisodeDiff.cost_delta dyx = HalfNaN)
  ∧ ¬ @cost_deltas_negate half_float store_costly "now" "id-x" "id-y".
Proof.
  set (dxy := EpisodeDiff.mk half_float "id-x" "id-y" 1 1 1 0 0 0 0 HalfNaN 0 []).
  set (dyx := EpisodeDiff.mk half_float "id-y" "id-x" 1 1 1 0 0 0 0 HalfNaN 0 []).
  assert (@EpisodeStore.diff half_float store_costly "now" "id-x" "id-y"
          = Returned (Some dxy)) as Hxy.
  { vm_cast_no_check (eq_refl (Returned (Some dxy))). }
  assert (@EpisodeStore.diff half_float store_costly "now" "id-y" "id-x"
          = Returned (Some dyx)) as Hyx.
  { vm_cast_no_check (eq_refl (Returned (Some dyx))). }
  split_and!; [apply holds_store_costly|reflexivity|reflexivity| |].
  - by exists dxy, dyx.
  - intros (dab & dba & Hab & Hba & Heq). rewrite Hxy in Hab. rewrite Hyx in Hba.
    injection Hab as <-. injection Hba as <-. discriminate Heq.
Qed.

(** C6, as amended.  The replay of a stored episode with [n] steps has
    [n] steps, numbered from 0 in the order of the steps whatever their
    [step_index]; a replay step has the fields [replay_index] and
    [replay_fields] only (no timestamp, no error, no raw-record link), and
    each field of [replay_fields] has the value it has in the step.  The
    replay carries the identifier, agent, status, total tokens, total cost
    and tools of the episode. *)
Theorem replay_view `{Float64} store now id e :
  EpisodeStore.get store now id = Returned (Some e) →
  ∃ r,
    EpisodeStore.get_replay store now id = Returned (Some r)
    ∧ EpisodeReplay.episode_id r = Episode.episode_id e
    ∧ EpisodeReplay.agent_id r = Episode.agent_id e
    ∧ EpisodeReplay.original_status r = Episode.status e
    ∧ EpisodeReplay.total_tokens r = Episode.total_tokens e
    ∧ EpisodeReplay.total_cost_usd r = Episode.total_cost_usd e
    ∧ EpisodeReplay.tools_used r = Episode.tools_used e
    ∧ length (EpisodeReplay.replay_steps r) = length (Episode.steps e)
    ∧ ∀ i s, Episode.steps e !! i = Some s →
        ∃ rs,
          EpisodeReplay.replay_steps r !! i = Some rs
          ∧ ReplayStep.replay_index rs = Z.of_nat i
          ∧ map fst (ReplayStep.model_dump rs) = "replay_index"%string :: replay_fields
          ∧ ∀ k, k ∈ replay_fields →
              kwarg k (ReplayStep.model_dump rs) = kwarg k (EpisodeStep.model_dump s).
Proof.
  intros Hget. unfold EpisodeStore.get_replay. rewrite Hget. simpl.
  eexists. split; [done|]. simpl. split_and!; try done.
  - by rewrite length_imap.
  - intros i s Hs. eexists. rewrite list_lookup_imap, Hs. simpl.
    split_and!; try done.
    intros k Hk. unfold replay_fields in Hk.
    repeat (apply elem_of_cons in Hk as [->|Hk]; [done|]).
    by apply elem_of_nil in Hk.
Qed.

Lemma replay_view_witness :
  ∃ r,
    @EpisodeStore.get_replay half_float store_a "now" "id-a" = Returned (Some r)
    ∧ length (EpisodeReplay.replay_steps r) = 2%nat
    ∧ EpisodeReplay.total_tokens r = 350.
Proof.
  destruct (@replay_view half_float store_a "now" "id-a" episode_a (get_store_a _))
    as (r & Hreplay & _ & _ & _ & Htokens & _ & _ & Hlength & _).
  exists r. rewrite Hlength, Htokens.
  split_and!; [done|..]; vm_compute; reflexivity.
Defined.

(** C6, counterexample.  The second step of the stored episode links the
    raw record [air-1]; its replay step has no field [air_record_id]. *)
Lemma replay_drops_air_record_id :
  ¬ @replay_keeps_other_fields half_float store_a "now" "id-a".
Proof.
  intros Hkeeps.
  set (replay_step :=
         ReplayStep.mk half_float 1 TOOL_CALL (Some "web_search") None None None None
           200 (Half 3) 1200 []).
  set (replay :=
         EpisodeReplay.mk half_float "id-a" "agent-a" SUCCESS
           [ReplayStep.mk half_float 0 LLM_CALL None (Some "gpt-4") (Some "openai")
              (Some "Hello") (Some "Hi there") 150 (Half 1) 800
              [("temperature"%string, @JFloat half_float (Half 1))];
            replay_step]
           350 (Half 4) ["web_search"]%string).
  assert (@EpisodeStore.get_replay half_float store_a "now" "id-a"
          = Returned (Some replay)) as Hreplay.
  { vm_cast_no_check (eq_refl (Returned (Some replay))). }
  specialize (Hkeeps episode_a replay 1%nat tool_step replay_step (get_store_a _) Hreplay
                eq_refl eq_refl "air_record_id"%string).
  assert ("air_record_id"%string ∈ map fst (EpisodeStep.model_dump tool_step)) as Hkey.
  { simpl. apply elem_of_cons. right. apply elem_of_cons. right. by left. }
  assert ("air_record_id"%string ∉ ["step_index"; "timestamp"; "error"]%string) as Hother.
  { intros Hin. repeat (apply elem_of_cons in Hin as [Hin|Hin]; [discriminate Hin|]).
    by apply elem_of_nil in Hin. }
  specialize (Hkeeps Hkey Hother). discriminate Hkeeps.
Qed.

(** C7, as amended.  Without filters, [list] returns the summaries of the
    page that [limit] and [offset] cut from the created episodes ordered
    by start time, newest first: all of them when the limit is negative
    or at least their number and the offset is zero.  The order among
    episodes of the same start time is the engine's. *)
Theorem list_without_filters `{Float64Laws} `{!SqlEngine} `{!SqlEngineLaws}
    store es limit offset :
  holds store es →
  ∃ ordered,
    ordered ≡ₚ es
    ∧ StronglySorted (newer_first Episode.started_at) ordered
    ∧ EpisodeStore.list store None None None None None None None limit offset
      = Returned (EpisodeSummary.of_episode <$> sql_limit_offset limit offset ordered)
    ∧ (limit < 0 ∨ Z.of_nat (length es) ≤ limit → offset ≤ 0 →
       sql_limit_offset limit offset ordered = ordered).
Proof.
  intros (Hdb & Hsaved & _).
  destruct (select_ordered_saved ([], []) es Hsaved)
    as (ordered & Hsel & Hperm & Hsorted & Hsaved').
  assert (ordered ≡ₚ es) as Hperm'.
  { rewrite Hperm. simpl. clear. induction es as [|e es IH]; [done|].
    rewrite filter_cons_True by done. by rewrite IH. }
  exists ordered. split_and!; try done.
  - unfold EpisodeStore.list. rewrite Hdb.
    change (EpisodeStore.list_filters None None None None None None None)
      with (@nil string, @nil string).
    rewrite Hsel, sql_limit_offset_map. apply traverse_rows_summary.
    unfold sql_limit_offset. destruct (limit <? 0).
    + by apply Forall_drop.
    + by apply Forall_take, Forall_drop.
  - intros Hlimit Hoffset. apply sql_limit_offset_all; [|done].
    by rewrite Hperm'.
Qed.

Lemma list_without_filters_witness :
  ∃ ordered,
    ordered ≡ₚ [episode_a; episode_b]
    ∧ @EpisodeStore.list half_float sorter_engine store_ab None None None None None None None
        50 0
      = Returned (EpisodeSummary.of_episode <$> ordered).
Proof.
  destruct (@list_without_filters half_float half_float_laws sorter_engine
              sorter_engine_laws store_ab [episode_a; episode_b] 50 0 holds_store_ab)
    as (ordered & Hperm & _ & Hlist & Hall).
  exists ordered. split; [done|]. rewrite Hlist, Hall; [done|simpl; lia|lia].
Defined.

(** C7, counterexample.  Two episodes created at the same instant come
    back in reverse insertion order from the engine that walks the index
    on [started_at]; and of fifty-one episodes the default page holds
    fifty. *)
Lemma list_order_and_page_counterexample :
  @holds half_float store_ab [episode_a; episode_b]
  ∧ ¬ @lists_all_newest_first half_float index_engine store_ab [episode_a; episode_b]
  ∧ @holds half_float bulk_store bulk_episodes
  ∧ ¬ @lists_all_newest_first half_float sorter_engine bulk_store bulk_episodes.
Proof.
  split_and!.
  - apply holds_store_ab.
  - unfold lists_all_newest_first.
    assert (@EpisodeStore.list half_float index_engine store_ab None None None None None
              None None 50 0
            = Returned (EpisodeSummary.of_episode <$> [episode_b; episode_a])) as ->.
    { vm_cast_no_check
        (eq_refl (Returned (EpisodeSummary.of_episode <$> [episode_b; episode_a]))). }
    by intros [=].
  - apply holds_bulk_store.
  - unfold lists_all_newest_first. intros Heq.
    apply (f_equal (λ o, match o with Returned l => length l | Raised _ => 0%nat end)) in Heq.
    rewrite length_fmap in Heq.
    assert (length (newest_first Episode.started_at bulk_episodes) = 51%nat) as Hall.
    { rewrite newest_first_perm. reflexivity. }
    rewrite Hall in Heq.
    assert ((match @EpisodeStore.list half_float sorter_engine bulk_store None None None
                     None None None None 50 0 with
             | Returned l => length l
             | Raised _ => 0%nat
             end) = 50%nat) as Hpage.
    { vm_cast_no_check (eq_refl 50%nat). }
    rewrite Hpage in Heq. discriminate Heq.
Qed.

(** C8.  On a store that holds [es], a lookup under an identifier that
    no episode has returns the absent value and raises nothing: [get] and
    [get_replay] return [None], and so does [diff] with the identifier on
    either side, whatever the other identifier is. *)
Theorem lookup_miss `{Float64Laws} store es now id other :
  holds store es → id ∉ map Episode.episode_id es →
  EpisodeStore.get store now id = Returned None
  ∧ EpisodeStore.get_replay store now id = Returned None
  ∧ EpisodeStore.diff store now id other = Returned None
  ∧ EpisodeStore.diff store now other id = Returned None.
Proof.
  intros Hholds Hid.
  assert (EpisodeStore.get store now id = Returned None) as Hget.
  { by rewrite (get_holds _ _ _ _ Hholds), find_episode_None. }
  unfold EpisodeStore.get_replay, EpisodeStore.diff. rewrite Hget.
  rewrite (get_holds _ _ _ other Hholds). simpl.
  by destruct (find _ es).
Qed.

Lemma lookup_miss_witness :
  @EpisodeStore.get half_float store_a "now" "missing" = Returned None
  ∧ @EpisodeStore.get_replay half_float store_a "now" "missing" = Returned None
  ∧ @EpisodeStore.diff half_float store_a "now" "missing" "id-a" = Returned None
  ∧ @EpisodeStore.diff half_float store_a "now" "id-a" "missing" = Returned None.
Proof.
  apply (@lookup_miss half_float half_float_laws store_a [episode_a] "now" "missing" "id-a"
           holds_store_a).
  apply not_elem_of_cons. split; [done|apply not_elem_of_nil].
Defined.

(** C9.  For every choice of the four filters of [export_jsonl], the
    export is the full dump, steps included, of the episodes that meet
    the filters, newest first, none cut off; and [list] with the same
    filters, no limit and offset zero returns the summaries of the same
    episodes in the same order, so that the two sequences of identifiers
    are equal. *)
Theorem export_matches_list `{Float64Laws} `{!SqlEngine} `{!SqlEngineLaws}
    store es now agent_id status since until limit :
  holds store es → limit < 0 ∨ Z.of_nat (length es) ≤ limit →
  ∃ selected,
    selected ≡ₚ filter (λ e, shared_match agent_id status since until e = true) es
    ∧ StronglySorted (newer_first Episode.started_at) selected
    ∧ EpisodeStore.export_jsonl store now agent_id status since until
      = Returned (Episode.model_dump <$> selected)
    ∧ EpisodeStore.list store agent_id status since until None None None limit 0
      = Returned (EpisodeSummary.of_episode <$> selected)
    ∧ (λ d, kwarg "episode_id" d) <$> (Episode.model_dump <$> selected)
      = (λ s, Some (JStr (EpisodeSummary.episode_id s)))
        <$> (EpisodeSummary.of_episode <$> selected)
    ∧ Forall (λ e, kwarg "steps" (Episode.model_dump e)
                   = Some (JList ((λ s, JDict (EpisodeStep.model_dump s))
                                  <$> Episode.steps e))) selected.
Proof.
  intros (Hdb & Hsaved & _) Hlimit.
  destruct (select_ordered_saved
              (EpisodeStore.date_filters
                 (EpisodeStore.agent_status_filters agent_id status) since until)
              es Hsaved)
    as (selected & Hsel & Hperm & Hsorted & Hsaved').
  assert (selected ≡ₚ filter (λ e, shared_match agent_id status since until e = true) es)
    as Hperm'.
  { rewrite Hperm. erewrite list_filter_iff; [done|]. intros e.
    pose proof (shared_filters_match agent_id status since until e) as Hm.
    simpl in Hm. by rewrite Hm. }
  exists selected. split_and!; try done.
  - unfold EpisodeStore.export_jsonl. rewrite Hdb, Hsel.
    by apply traverse_rows_dump.
  - unfold EpisodeStore.list. rewrite Hdb, list_filters_shared.
    rewrite Hsel, sql_limit_offset_map, sql_limit_offset_all; [| |lia].
    + by apply traverse_rows_summary.
    + destruct Hlimit as [?|?]; [by left|right].
      assert (length selected ≤ length es)%nat; [|lia].
      rewrite Hperm'. apply length_filter.
  - rewrite <- !list_fmap_compose. by apply list_fmap_ext.
  - by apply Forall_forall.
Qed.

Lemma export_matches_list_witness :
  ∃ selected,
    @EpisodeStore.export_jsonl half_float sorter_engine store_ab "now" (Some "agent-a"%string)
      None None None
    = Returned (Episode.model_dump <$> selected)
    ∧ @EpisodeStore.list half_float sorter_engine store_ab (Some "agent-a"%string) None None
        None None None None (-1) 0
      = Returned (EpisodeSummary.of_episode <$> selected).
Proof.
  destruct (@export_matches_list half_float half_float_laws sorter_engine
              sorter_engine_laws store_ab [episode_a; episode_b] "now"
              (Some "agent-a"%string) None None None (-1) holds_store_ab
              (or_introl eq_refl))
    as (selected & _ & _ & Hexport & Hlist & _).
  exists selected. split; [exact Hexport|exact Hlist].
Defined.

(** C10.  In [list], [count] and [export_jsonl], the empty string as the
    agent or as the status filter is the filter left out: the call returns
    what it returns without that filter.  No restriction is applied: with
    both filters empty [count] counts every row of the table. *)
Theorem empty_filter_is_omitted `{SqlEngine} store now agent_id status since until
    model provider tool limit offset :
  EpisodeStore.list store (Some EmptyString) status since until model provider tool
    limit offset
  = EpisodeStore.list store None status since until model provider tool limit offset
  ∧ EpisodeStore.list store agent_id (Some EmptyString) since until model provider tool
      limit offset
    = EpisodeStore.list store agent_id None since until model provider tool limit offset
  ∧ EpisodeStore.count store (Some EmptyString) status = EpisodeStore.count store None status
  ∧ EpisodeStore.count store agent_id (Some EmptyString)
    = EpisodeStore.count store agent_id None
  ∧ EpisodeStore.export_jsonl store now (Some EmptyString) status since until
    = EpisodeStore.export_jsonl store now None status since until
  ∧ EpisodeStore.export_jsonl store now agent_id (Some EmptyString) since until
    = EpisodeStore.export_jsonl store now agent_id None since until
  ∧ ∀ rows, EpisodeStore._db store = Some rows →
      EpisodeStore.count store (Some EmptyString) (Some EmptyString)
      = Returned (Z.of_nat (length rows)).
Proof.
  split_and!; try reflexivity.
  intros rows Hdb. unfold EpisodeStore.count. rewrite Hdb.
  change (EpisodeStore.agent_status_filters (Some EmptyString) (Some EmptyString))
    with (@nil string, @nil string).
  simpl. by rewrite sql_where_nil.
Qed.

Lemma empty_filter_is_omitted_witness :
  @EpisodeStore.count half_float store_ab (Some EmptyString) (Some EmptyString)
  = Returned 2.
Proof.
  destruct (@empty_filter_is_omitted half_float sorter_engine store_ab "now"
              None None None None None None None 50 0)
    as (_ & _ & _ & _ & _ & _ & Hcount).
  destruct holds_store_ab as (Hdb & _).
  rewrite (Hcount _ Hdb). reflexivity.
Defined.
